(** * LightFieldWidget: a shallow embedding of [src/viewer/light_field_widget.cpp]

    The widget is a Qt OpenGL surface that tiles a grid of photographs into
    one 3D texture and lets the user pan a virtual camera with the mouse.
    This development embeds the widget's state and methods as Rocq
    functions and proves the properties its specification lists.

    Conventions of the embedding:
    - [int] is a 32-bit two's-complement integer carried in [Z]; a result
      outside its range wraps ([Cxx.wrap32]), which is what the compiled
      code computes although C++ leaves it undefined, and the statements
      that depend on a product say that it stays in range; division by
      zero has no result;
    - [float] and [double] are IEEE 754 binary32 and binary64 values of
      the Standard Library's [spec_float], with its operations;
    - a byte buffer ([std::vector<uint8_t>]) is a [list Z] read with [!!]
      and written with [<[ _ := _ ]>]; a write outside the vector is a fault;
    - a method that can end the process, or that talks to the GPU, runs in
      the monad [Proc.M]: it yields the effects issued so far, in order, and
      either a value or the fault that stopped it. *)

From Stdlib Require Import ZArith Bool Lia String.
From Stdlib Require Import Floats.SpecFloat.
From stdpp Require Import base list.

Local Open Scope Z_scope.

(** ** C++ scalar types *)

Module Cxx.

Definition INT_MAX : Z := 2147483647.
Definition INT_MIN : Z := -2147483648.

(** Reduction of a mathematical integer to the [int] that holds it. *)
Definition wrap32 (z : Z) : Z := (z + 2147483648) mod 4294967296 - 2147483648.

Definition int_add (a b : Z) : Z := wrap32 (a + b).
Definition int_sub (a b : Z) : Z := wrap32 (a - b).
Definition int_mul (a b : Z) : Z := wrap32 (a * b).

(** [a / b] on [int]: truncation towards zero; nothing for [b = 0]. *)
Definition int_div (a b : Z) : option Z :=
  if b =? 0 then None else Some (wrap32 (Z.quot a b)).

(** [(uint8_t) v] *)
Definition to_uint8 (v : Z) : Z := v mod 256.

(** [std::min] and [std::max] on [int]. *)
Definition int_min (a b : Z) : Z := if b <? a then b else a.
Definition int_max (a b : Z) : Z := if a <? b then b else a.

(** binary32 *)
Module F32.
Definition prec : Z := 24.
Definition emax : Z := 128.
(** The literal [m * 2^e], rounded to nearest even. *)
Definition lit (m e : Z) : spec_float := binary_normalize prec emax m e false.
End F32.

(** binary64 *)
Module F64.
Definition prec : Z := 53.
Definition emax : Z := 1024.
Definition lit (m e : Z) : spec_float := binary_normalize prec emax m e false.
Definition zero : spec_float := S754_zero false.
Definition one : spec_float := lit 1 0.
Definition add : spec_float -> spec_float -> spec_float := SFadd prec emax.
Definition div : spec_float -> spec_float -> spec_float := SFdiv prec emax.
Definition ltb : spec_float -> spec_float -> bool := SFltb.
Definition leb : spec_float -> spec_float -> bool := SFleb.
(** [(double) i] for an [int] [i]: exact. *)
Definition of_int (i : Z) : spec_float := binary_normalize prec emax i 0 false.
(** [float] to [double]: exact. *)
Definition of_float (f : spec_float) : spec_float :=
  match f with
  | S754_finite s m e => binary_round prec emax s m e
  | _ => f
  end.
(** [(float) d]: rounds to the nearest binary32. *)
Definition to_float (d : spec_float) : spec_float :=
  match d with
  | S754_finite s m e => binary_round F32.prec F32.emax s m e
  | _ => d
  end.
(** [std::min(a, b)] is [(b < a) ? b : a]; [std::max(a, b)] is
    [(a < b) ? b : a]. A comparison with a NaN is false. *)
Definition min (a b : spec_float) : spec_float := if ltb b a then b else a.
Definition max (a b : spec_float) : spec_float := if ltb a b then b else a.
End F64.

End Cxx.

(** ** The Qt value types the widget uses *)

Module Qt.

Record QPoint := mkQPoint { px : Z; py : Z }.
Record QPointF := mkQPointF { fx : spec_float; fy : spec_float }.
Record QSize := mkQSize { size_width : Z; size_height : Z }.

Definition setX (p : QPointF) (v : spec_float) : QPointF := mkQPointF v (fy p).
Definition setY (p : QPointF) (v : spec_float) : QPointF := mkQPointF (fx p) v.

(** [Qt::MouseButton] flags. *)
Definition NoButton : Z := 0.
Definition LeftButton : Z := 1.
Definition RightButton : Z := 2.
Definition MiddleButton : Z := 4.

(** A mouse event: the button that caused it, the buttons held while it
    was generated, and the cursor position in widget coordinates. *)
Record QMouseEvent := mkQMouseEvent { button : Z; buttons : Z; pos : QPoint }.

(** [QColor]: [red()], [green()] and [blue()] are [int]s. *)
Record QColor := mkQColor { red : Z; green : Z; blue : Z }.

(** Qt keeps every channel of a colour within [0, 255]. *)
Definition color_in_range (c : QColor) : Prop :=
  0 <= red c <= 255 /\ 0 <= green c <= 255 /\ 0 <= blue c <= 255.

(** [QImage]: the null image (what a failed decode gives), or a
    [w] by [h] raster; a raster has positive sides. *)
Inductive QImage :=
| NullImage
| Image (w h : positive) (pixels : Z -> Z -> QColor).

Definition isNull (img : QImage) : bool :=
  match img with NullImage => true | Image _ _ _ => false end.
Definition width (img : QImage) : Z :=
  match img with NullImage => 0 | Image w _ _ => Z.pos w end.
Definition height (img : QImage) : Z :=
  match img with NullImage => 0 | Image _ h _ => Z.pos h end.
(** [pixelColor(x, y)]; the null image gives the default colour. *)
Definition pixelColor (img : QImage) (x y : Z) : QColor :=
  match img with
  | NullImage => mkQColor 0 0 0
  | Image _ _ pixels => pixels x y
  end.

(** [ImageInfo]: an entry of the image list, holding a file path. *)
Record ImageInfo := mkImageInfo { path : string }.

(** The 3D texture as [setLightField] configures it. *)
Inductive Filter := Nearest | Linear.
Inductive WrapMode := Repeat | ClampToEdge.
Inductive TextureFormat := RGB8_UNorm.

Record QOpenGLTexture := mkTexture {
  autoMipMap : bool;
  minFilter : Filter;
  magFilter : Filter;
  wrapS : WrapMode;
  wrapT : WrapMode;
  wrapR : WrapMode;
  format : TextureFormat;
  tex_width : Z;
  tex_height : Z;
  tex_depth : Z;
  tex_data : list Z
}.

End Qt.

(** ** Effects and faults of a method call *)

Module Proc.

(** What a method does to the world outside the widget's fields. *)
Inductive effect :=
| QDebug (msg : string)
| MakeCurrent
| UpdateGeometry
| Update
| GlViewport (x y w h : Z)
| GlClear
| ShaderBind
| SetUniformFloat (name : string) (v : spec_float)
| SetUniformInt (name : string) (v : Z)
| TextureBind (unit : Z)
| TextureRelease (unit : Z)
| VaoBind
| VaoRelease
| GlDrawElements (count : Z)
| TextureCreate
| TextureAllocateStorage (w h d : Z)
| TextureSetData (data : list Z).

Definition is_draw (e : effect) : bool :=
  match e with GlDrawElements _ => true | _ => false end.

(** Calls that create a texture or move data to the GPU. *)
Definition is_texture_upload (e : effect) : bool :=
  match e with
  | TextureCreate | TextureAllocateStorage _ _ _ | TextureSetData _ => true
  | _ => false
  end.

(** Calls that change GPU state. *)
Definition is_gpu (e : effect) : bool :=
  match e with
  | QDebug _ | MakeCurrent | UpdateGeometry | Update => false
  | _ => true
  end.

(** Why a call did not return. *)
Inductive fault :=
| Abort                  (* std::abort() *)
| OutOfBounds            (* operator[] outside the vector *)
| LengthError.           (* std::vector refused the size; nobody catches it *)

Inductive result (A : Type) :=
| Ok (a : A)
| Fail (f : fault).
Arguments Ok {A} a.
Arguments Fail {A} f.

Definition M (A : Type) : Type := list effect * result A.

Definition ret {A} (a : A) : M A := ([], Ok a).
Definition fail {A} (f : fault) : M A := ([], Fail f).
Definition emit (e : effect) : M unit := ([e], Ok tt).
Definition bind {A B} (m : M A) (k : A -> M B) : M B :=
  match m with
  | (t, Ok a) => let (t', r) := k a in (t ++ t', r)
  | (t, Fail f) => (t, Fail f)
  end.

Definition trace {A} (m : M A) : list effect := fst m.
Definition outcome {A} (m : M A) : result A := snd m.

(** [for (int i = lo; i < lo + n; i++) s = body i s] *)
Fixpoint for_loop {S} (lo : Z) (n : nat) (body : Z -> S -> M S) (s : S) : M S :=
  match n with
  | O => ret s
  | Datatypes.S n' => bind (body lo s) (for_loop (lo + 1) n' body)
  end.

End Proc.

#[global] Instance proc_ret : MRet Proc.M := @Proc.ret.
#[global] Instance proc_bind : MBind Proc.M := fun A B k m => Proc.bind m k.

(** ** The widget *)

Module Widget.
Import Cxx Qt Proc.

(** The data members of [LightFieldWidget] that the methods below use,
    and [geometry], the size [QWidget::width()] and [QWidget::height()]
    report. *)
Record LightFieldWidget := mkWidget {
  focus : spec_float;                         (* float *)
  aperture : spec_float;                      (* float *)
  lfRows : Z;
  lfCols : Z;
  imageSize : QSize;
  cameraPosition : QPointF;
  isClick : bool;
  prevMouseClick : QPoint;
  lightFieldTexture : option QOpenGLTexture;  (* std::unique_ptr *)
  geometry : QSize
}.

Definition with_focus (v : spec_float) (w : LightFieldWidget) :=
  mkWidget v (aperture w) (lfRows w) (lfCols w) (imageSize w)
    (cameraPosition w) (isClick w) (prevMouseClick w) (lightFieldTexture w)
    (geometry w).
Definition with_aperture (v : spec_float) (w : LightFieldWidget) :=
  mkWidget (focus w) v (lfRows w) (lfCols w) (imageSize w)
    (cameraPosition w) (isClick w) (prevMouseClick w) (lightFieldTexture w)
    (geometry w).
Definition with_grid (rows cols : Z) (w : LightFieldWidget) :=
  mkWidget (focus w) (aperture w) rows cols (imageSize w)
    (cameraPosition w) (isClick w) (prevMouseClick w) (lightFieldTexture w)
    (geometry w).
Definition with_imageSize (s : QSize) (w : LightFieldWidget) :=
  mkWidget (focus w) (aperture w) (lfRows w) (lfCols w) s
    (cameraPosition w) (isClick w) (prevMouseClick w) (lightFieldTexture w)
    (geometry w).
Definition with_cameraPosition (p : QPointF) (w : LightFieldWidget) :=
  mkWidget (focus w) (aperture w) (lfRows w) (lfCols w) (imageSize w)
    p (isClick w) (prevMouseClick w) (lightFieldTexture w) (geometry w).
Definition with_isClick (b : bool) (w : LightFieldWidget) :=
  mkWidget (focus w) (aperture w) (lfRows w) (lfCols w) (imageSize w)
    (cameraPosition w) b (prevMouseClick w) (lightFieldTexture w)
    (geometry w).
Definition with_prevMouseClick (p : QPoint) (w : LightFieldWidget) :=
  mkWidget (focus w) (aperture w) (lfRows w) (lfCols w) (imageSize w)
    (cameraPosition w) (isClick w) p (lightFieldTexture w) (geometry w).
Definition with_texture (t : option QOpenGLTexture) (w : LightFieldWidget) :=
  mkWidget (focus w) (aperture w) (lfRows w) (lfCols w) (imageSize w)
    (cameraPosition w) (isClick w) (prevMouseClick w) t (geometry w).
Definition with_geometry (g : QSize) (w : LightFieldWidget) :=
  mkWidget (focus w) (aperture w) (lfRows w) (lfCols w) (imageSize w)
    (cameraPosition w) (isClick w) (prevMouseClick w) (lightFieldTexture w)
    g.

(** The constructor's member initialisers. [0.5f] is a [float] literal
    that [QPointF] stores as a [double]; [prevMouseClick] and
    [lightFieldTexture] are default-constructed. *)
Definition construct (g : QSize) : LightFieldWidget :=
  {| focus := S754_zero false;
     aperture := F32.lit 5 0;
     lfRows := 0;
     lfCols := 0;
     imageSize := mkQSize 1 1;
     cameraPosition :=
       mkQPointF (F64.of_float (F32.lit 1 (-1))) (F64.of_float (F32.lit 1 (-1)));
     isClick := false;
     prevMouseClick := mkQPoint 0 0;
     lightFieldTexture := None;
     geometry := g |}.

Definition sizeHint (w : LightFieldWidget) : option QSize :=
  let h := 512 in
  match int_div (int_mul h (size_width (imageSize w))) (size_height (imageSize w)) with
  | Some wd => Some (mkQSize wd h)
  | None => None
  end.

Definition minimumSizeHint (w : LightFieldWidget) : option QSize := sizeHint w.

Definition resizeGL (width height : Z) : list effect :=
  [GlViewport 0 0 width height].

Definition indexBufferSize : Z := 6.

Definition paintGL (w : LightFieldWidget) : list effect :=
  match lightFieldTexture w with
  | None => []
  | Some _ =>
      [ GlClear;
        ShaderBind;
        SetUniformFloat "focusPoint" (focus w);
        SetUniformFloat "apertureSize" (aperture w);
        SetUniformFloat "cameraPositionX" (F64.to_float (fx (cameraPosition w)));
        SetUniformFloat "cameraPositionY" (F64.to_float (fy (cameraPosition w)));
        TextureBind 0;
        SetUniformInt "textureImages" 0;
        SetUniformFloat "focusPoint" (focus w);
        SetUniformFloat "apertureSize" (aperture w);
        SetUniformInt "rows" (lfRows w);
        SetUniformInt "cols" (lfCols w);
        VaoBind;
        GlDrawElements indexBufferSize;
        VaoRelease;
        TextureRelease 0 ]
  end.

Definition mousePressEvent (ev : QMouseEvent) (w : LightFieldWidget) : LightFieldWidget :=
  if button ev =? LeftButton
  then with_prevMouseClick (pos ev) (with_isClick true w)
  else w.

Definition mouseMoveEvent (ev : QMouseEvent) (w : LightFieldWidget) : LightFieldWidget :=
  if negb (Z.land (buttons ev) LeftButton =? 0) then
    if isClick w then
      let size := F64.of_int (int_min (size_width (geometry w)) (size_height (geometry w))) in
      let dx := F64.div (F64.of_int (int_sub (px (pos ev)) (px (prevMouseClick w)))) size in
      let dy := F64.div (F64.of_int (int_sub (py (pos ev)) (py (prevMouseClick w)))) size in
      let c1 := setX (cameraPosition w)
                  (F64.max F64.zero (F64.min (F64.add (fx (cameraPosition w)) dx) F64.one)) in
      let c2 := setY c1
                  (F64.max F64.zero (F64.min (F64.add (fy c1) dy) F64.one)) in
      with_cameraPosition c2 w
    else w
  else w.

Definition mouseReleaseEvent (ev : QMouseEvent) (w : LightFieldWidget) : LightFieldWidget :=
  if button ev =? LeftButton then with_isClick false w else w.

Definition setFocusPoint (value : spec_float) (w : LightFieldWidget) : LightFieldWidget :=
  with_focus value w.
Definition setApertureSize (value : spec_float) (w : LightFieldWidget) : LightFieldWidget :=
  with_aperture value w.
Definition focusPoint (w : LightFieldWidget) : spec_float := focus w.
Definition apertureSize (w : LightFieldWidget) : spec_float := aperture w.

Definition animate : list effect := [Update].

(** *** [setLightField] *)

(** [std::vector<uint8_t> v(n)] for an [int] [n]: [n] zero bytes; a
    negative [n] converts to a size no vector can have. *)
Definition new_vector (n : Z) : M (list Z) :=
  if n <? 0 then fail LengthError else mret (replicate (Z.to_nat n) 0).

(** [v[i] = b] *)
Definition store (v : list Z) (i : Z) (b : Z) : M (list Z) :=
  if (0 <=? i) && (i <? Z.of_nat (length v))
  then mret (<[Z.to_nat i := b]> v)
  else fail OutOfBounds.

(** [v[i]] on the list of views. *)
Definition at_view (v : list ImageInfo) (i : Z) : M ImageInfo :=
  if i <? 0 then fail OutOfBounds else
  match v !! Z.to_nat i with
  | Some info => mret info
  | None => fail OutOfBounds
  end.

Section Loading.
(** [QImage(path)]: what decoding the file at [path] gives. *)
Variable loadImage : string -> QImage.

(** The offset [((k * imageH + y) * imageW + x) * 3 + c], in [int]. *)
Definition offset (imageW imageH k y x c : Z) : Z :=
  int_add (int_mul (int_add (int_mul (int_add (int_mul k imageH) y) imageW) x) 3) c.

(** Body of the loop over [x]. *)
Definition copy_pixel (img : QImage) (imageW imageH k y x : Z)
    (imageData : list Z) : M (list Z) :=
  let color := pixelColor img x y in
  d1 ← store imageData (offset imageW imageH k y x 0) (to_uint8 (red color));
  d2 ← store d1 (offset imageW imageH k y x 1) (to_uint8 (green color));
  store d2 (offset imageW imageH k y x 2) (to_uint8 (blue color)).

(** Body of the loop over [y]. *)
Definition copy_row (img : QImage) (imageW imageH k y : Z)
    (imageData : list Z) : M (list Z) :=
  for_loop 0 (Z.to_nat imageW) (copy_pixel img imageW imageH k y) imageData.

(** Body of the loop over [k]. *)
Definition copy_view (viewInfos : list ImageInfo) (imageW imageH k : Z)
    (imageData : list Z) : M (list Z) :=
  info ← at_view viewInfos k;
  let img := loadImage (path info) in
  if negb (width img =? imageW) || negb (height img =? imageH) then
    emit (QDebug "[ERROR] image size invalid!!");;
    fail Abort
  else
    for_loop 0 (Z.to_nat imageH) (copy_row img imageW imageH k) imageData.

Definition make_texture (imageW imageH depth : Z) (imageData : list Z) : QOpenGLTexture :=
  {| autoMipMap := false;
     minFilter := Linear;
     magFilter := Linear;
     wrapS := ClampToEdge;
     wrapT := ClampToEdge;
     wrapR := ClampToEdge;
     format := RGB8_UNorm;
     tex_width := imageW;
     tex_height := imageH;
     tex_depth := depth;
     tex_data := imageData |}.

Definition setLightField (viewInfos : list ImageInfo) (rows cols : Z)
    (w : LightFieldWidget) : M LightFieldWidget :=
  emit MakeCurrent;;
  let w := with_grid rows cols w in
  first ← at_view viewInfos 0;
  let temp := loadImage (path first) in
  if isNull temp then
    emit (QDebug ("[ERROR] failed to load image: " ++ path first));;
    fail Abort
  else
    let imageW := width temp in
    let imageH := height temp in
    let w := with_imageSize (mkQSize imageW imageH) w in
    emit UpdateGeometry;;
    imageData ← new_vector
      (int_mul (int_mul (int_mul (int_mul rows cols) imageH) imageW) 3);
    imageData ← for_loop 0 (length viewInfos)
      (copy_view viewInfos imageW imageH) imageData;
    emit TextureCreate;;
    emit (TextureAllocateStorage imageW imageH (int_mul rows cols));;
    emit (TextureSetData imageData);;
    let w := with_texture
      (Some (make_texture imageW imageH (int_mul rows cols) imageData)) w in
    emit (QDebug "[INFO] light field texture is binded!!");;
    mret w.
End Loading.

(** *** The widget under a stream of toolkit events *)

(** What reaches the widget besides [setLightField]: the three mouse
    events, a resize of the widget by the layout, and the two setters,
    which the surrounding window calls. *)
Inductive ui_event :=
| Press (ev : QMouseEvent)
| Move (ev : QMouseEvent)
| Release (ev : QMouseEvent)
| Resized (g : QSize)
| FocusSet (value : spec_float)
| ApertureSet (value : spec_float).

Definition handle (e : ui_event) (w : LightFieldWidget) : LightFieldWidget :=
  match e with
  | Press ev => mousePressEvent ev w
  | Move ev => mouseMoveEvent ev w
  | Release ev => mouseReleaseEvent ev w
  | Resized g => with_geometry g w
  | FocusSet v => setFocusPoint v w
  | ApertureSet v => setApertureSize v w
  end.

(** The widget after all of [evs], oldest first. *)
Definition run (evs : list ui_event) (w : LightFieldWidget) : LightFieldWidget :=
  fold_left (fun w e => handle e w) evs w.

(** The widget after each of [evs] in turn. *)
Fixpoint trajectory (evs : list ui_event) (w : LightFieldWidget) : list LightFieldWidget :=
  match evs with
  | [] => []
  | e :: evs' => handle e w :: trajectory evs' (handle e w)
  end.

End Widget.

(** ** Vocabulary of the statements *)

Module Spec.
Import Cxx Qt Proc Widget.

(** [represents f n d]: the float [f] is a zero or a finite number whose
    value is exactly the fraction [n / d]. *)
Definition represents (f : spec_float) (n d : Z) : Prop :=
  match f with
  | S754_zero _ => n = 0
  | S754_finite s m e =>
      let sm := if s then Z.neg m else Z.pos m in
      if 0 <=? e then sm * 2 ^ e * d = n else sm * d = n * 2 ^ (- e)
  | _ => False
  end.

(** [0 <= v <= 1] on doubles. *)
Definition in_unit_interval (v : spec_float) : Prop :=
  F64.leb F64.zero v = true /\ F64.leb v F64.one = true.

Definition camera_in_unit_square (w : LightFieldWidget) : Prop :=
  in_unit_interval (fx (cameraPosition w)) /\
  in_unit_interval (fy (cameraPosition w)).

(** Clamping of one axis to [[0, 1]]. *)
Definition clamp01 (v : spec_float) : spec_float :=
  F64.max F64.zero (F64.min v F64.one).

(** One step of a drag as the specification words it: the offset of the
    cursor from the press point, divided by the smaller side of the
    widget, is added to each axis, and each axis is clamped. *)
Definition drag_step (g : QSize) (press : QPoint) (c : QPointF) (cur : QPoint) : QPointF :=
  let size := F64.of_int (Z.min (size_width g) (size_height g)) in
  let dx := F64.div (F64.of_int (int_sub (px cur) (px press))) size in
  let dy := F64.div (F64.of_int (int_sub (py cur) (py press))) size in
  mkQPointF (clamp01 (F64.add (fx c) dx)) (clamp01 (F64.add (fy c) dy)).

Definition left_held (ev : QMouseEvent) : Prop :=
  Z.land (buttons ev) LeftButton <> 0.

(** Channel [c] of a colour: 0 red, 1 green, 2 blue. *)
Definition channel (c : Z) (col : QColor) : Z :=
  if c =? 0 then red col else if c =? 1 then green col else blue col.

(** Every pixel inside the raster has its channels within [0, 255]. *)
Definition image_in_range (img : QImage) : Prop :=
  forall x y, 0 <= x < width img -> 0 <= y < height img ->
    color_in_range (pixelColor img x y).

(** A byte buffer of [len] bytes in which the copy loop has passed the
    first [cur] pixels, counted over the views in input order: a passed
    pixel [(x, y)] of view [k] has its three channels, cast to bytes, at
    offset [((k * H + y) * W + x) * 3], and every byte from pixel [cur] on
    is still zero. *)
Definition tiled (loadImage : string -> QImage) (viewInfos : list ImageInfo)
    (W H len cur : Z) (buf : list Z) : Prop :=
  Z.of_nat (length buf) = len /\
  (forall (k : nat) (info : ImageInfo) (y x c : Z),
     viewInfos !! k = Some info ->
     0 <= y < H -> 0 <= x < W -> 0 <= c < 3 ->
     (Z.of_nat k * H + y) * W + x < cur ->
     buf !! Z.to_nat (((Z.of_nat k * H + y) * W + x) * 3 + c) =
       Some (to_uint8 (channel c (pixelColor (loadImage (path info)) x y)))) /\
  (forall j : Z, 3 * cur <= j < len -> buf !! Z.to_nat j = Some 0).

(** Every view decodes to a raster of the size [W] by [H]. *)
Definition same_size (loadImage : string -> QImage) (viewInfos : list ImageInfo)
    (W H : Z) : Prop :=
  forall (k : nat) (info : ImageInfo), viewInfos !! k = Some info ->
    width (loadImage (path info)) = W /\ height (loadImage (path info)) = H.

(** What a successful [setLightField] issues, in order. *)
Definition load_trace (W H depth : Z) (data : list Z) : list effect :=
  [ MakeCurrent; UpdateGeometry; TextureCreate;
    TextureAllocateStorage W H depth; TextureSetData data;
    QDebug "[INFO] light field texture is binded!!" ].

(** A valid grid: [rows * cols] views, at least one, that all decode to
    [W] by [H] rasters with channels in range, and whose bytes an [int]
    can count. *)
Definition valid_grid (loadImage : string -> QImage) (viewInfos : list ImageInfo)
    (rows cols W H : Z) : Prop :=
  0 < W /\ 0 < H /\ 0 < rows * cols /\
  Z.of_nat (length viewInfos) = rows * cols /\
  same_size loadImage viewInfos W H /\
  (forall (k : nat) (info : ImageInfo), viewInfos !! k = Some info ->
     image_in_range (loadImage (path info))) /\
  rows * cols * H * W * 3 <= INT_MAX.

(** The view [info] does not have the size [W] by [H]. *)
Definition size_differs (loadImage : string -> QImage) (W H : Z) (info : ImageInfo) : Prop :=
  negb (width (loadImage (path info)) =? W)
  || negb (height (loadImage (path info)) =? H) = true.

End Spec.

(** ** Sample inputs *)

Module Sample.
Import Qt.

Definition view_a : QImage :=
  Image 2 1 (fun x y => mkQColor (10 + x) (20 + x) (30 + x)).
Definition view_b : QImage :=
  Image 2 1 (fun x y => mkQColor (110 + x) (120 + x) (130 + x)).
Definition view_small : QImage :=
  Image 1 1 (fun x y => mkQColor 7 8 9).

Definition decode (p : string) : QImage :=
  if String.eqb p "a.png" then view_a
  else if String.eqb p "b.png" then view_b
  else if String.eqb p "small.png" then view_small
  else NullImage.

Definition grid : list ImageInfo := [mkImageInfo "a.png"; mkImageInfo "b.png"].
Definition ragged : list ImageInfo := [mkImageInfo "a.png"; mkImageInfo "small.png"].

End Sample.

(** ** The widget's life, and the byte count of a load *)

Module Lifecycle.
Import Cxx Qt Proc Widget.

(** [(rows * cols) * imageH * imageW * 3], in [int]: the size the vector
    is constructed with. *)
Definition byte_count (rows cols imageW imageH : Z) : Z :=
  int_mul (int_mul (int_mul (int_mul rows cols) imageH) imageW) 3.

(** The states a widget can be in: freshly constructed, after a toolkit
    event or a setter call, or after a [setLightField] that returned. *)
Inductive reachable (loadImage : string -> QImage) : LightFieldWidget -> Prop :=
| reach_construct (g : QSize) : reachable loadImage (construct g)
| reach_event (e : ui_event) (w : LightFieldWidget) :
    reachable loadImage w -> reachable loadImage (handle e w)
| reach_load (viewInfos : list ImageInfo) (rows cols : Z) (w w' : LightFieldWidget) :
    reachable loadImage w ->
    outcome (setLightField loadImage viewInfos rows cols w) = Ok w' ->
    reachable loadImage w'.

(** The event is a press of the left button, the only one that starts a
    drag. *)
Definition starts_drag (e : ui_event) : bool :=
  match e with
  | Press ev => button ev =? LeftButton
  | _ => false
  end.

(** A computation that is silent when it returns, and that can only stop
    on a write outside the vector (silently) or on [std::abort] after one
    diagnostic. *)
Definition quiet {A} (m : M A) : Prop :=
  match m with
  | (t, Ok _) => t = []
  | (t, Fail f) =>
      (t = [] /\ f = OutOfBounds) \/ (exists msg, t = [QDebug msg] /\ f = Abort)
  end.

(** What holds of the loaded data in every state: without a texture the
    image size and the grid are the constructor's; with one, the texture
    has the image size, its depth is the product of the recorded rows and
    columns, and its data has the byte count of that shape. *)
Definition load_consistent (w : LightFieldWidget) : Prop :=
  0 < size_width (imageSize w) /\ 0 < size_height (imageSize w) /\
  match lightFieldTexture w with
  | None => imageSize w = mkQSize 1 1 /\ lfRows w = 0 /\ lfCols w = 0
  | Some tex =>
      tex_width tex = size_width (imageSize w) /\
      tex_height tex = size_height (imageSize w) /\
      tex_depth tex = int_mul (lfRows w) (lfCols w) /\
      Z.of_nat (length (tex_data tex)) =
        byte_count (lfRows w) (lfCols w) (tex_width tex) (tex_height tex)
  end.

End Lifecycle.

(** ** Properties *)

Import Cxx Qt Proc Widget Spec.

(** *** Floating-point comparisons *)

Lemma SFcompare_antisym (x y : spec_float) (c : comparison) :
  SFcompare x y = Some c -> SFcompare y x = Some (CompOpp c).
Proof.
  destruct x as [sx|sx| |sx mx ex], y as [sy|sy| |sy my ey]; simpl;
    try discriminate;
    try (destruct sx); try (destruct sy);
    intros H; inversion H; subst; clear H; try reflexivity.
  - rewrite (Z.compare_antisym ey ex).
    destruct (ey ?= ex) eqn:E; simpl; try reflexivity.
    now rewrite (Pos.compare_cont_antisym mx my Eq).
  - rewrite (Z.compare_antisym ey ex).
    destruct (ey ?= ex) eqn:E; simpl; try reflexivity.
    now rewrite (Pos.compare_cont_antisym mx my Eq).
Qed.

Lemma F64_one_eq : F64.one = S754_finite false 4503599627370496 (-52).
Proof. reflexivity. Qed.

Lemma clamp01_in_unit (v : spec_float) : in_unit_interval (clamp01 v).
Proof.
  unfold in_unit_interval, clamp01, F64.max, F64.min, F64.leb, F64.ltb.
  rewrite F64_one_eq. unfold F64.zero.
  destruct (SFltb (S754_finite false 4503599627370496 (-52)) v) eqn:H1.
  - split; reflexivity.
  - destruct (SFltb (S754_zero false) v) eqn:H0.
    + unfold SFltb, SFleb in *.
      destruct (SFcompare (S754_zero false) v) as [[]|] eqn:C0; try discriminate.
      split; [reflexivity|].
      destruct (SFcompare (S754_finite false 4503599627370496 (-52)) v)
        as [c|] eqn:C1.
      * rewrite (SFcompare_antisym _ _ _ C1).
        destruct c; try reflexivity. discriminate.
      * destruct v; simpl in C0, C1; discriminate.
    + split; reflexivity.
Qed.

Lemma int_min_Zmin (a b : Z) : int_min a b = Z.min a b.
Proof. unfold int_min. destruct (Z.ltb_spec b a); lia. Qed.

(** *** Mouse handling *)

Lemma mouseMoveEvent_dragging (ev : QMouseEvent) (w : LightFieldWidget) :
  left_held ev -> isClick w = true ->
  mouseMoveEvent ev w =
    with_cameraPosition (drag_step (geometry w) (prevMouseClick w) (cameraPosition w) (pos ev)) w.
Proof.
  intros Hl Hc. unfold mouseMoveEvent, left_held in *.
  destruct (Z.eqb_spec (Z.land (buttons ev) LeftButton) 0) as [E|_]; [contradiction|].
  simpl. rewrite Hc. unfold drag_step, clamp01, setX, setY. simpl.
  now rewrite int_min_Zmin.
Qed.

Lemma mouseMoveEvent_idle (ev : QMouseEvent) (w : LightFieldWidget) :
  isClick w = false \/ Z.land (buttons ev) LeftButton = 0 ->
  mouseMoveEvent ev w = w.
Proof.
  intros [H|H]; unfold mouseMoveEvent.
  - rewrite H. now destruct (negb _).
  - now rewrite H.
Qed.

Lemma handle_camera_in_unit (e : ui_event) (w : LightFieldWidget) :
  camera_in_unit_square w -> camera_in_unit_square (handle e w).
Proof.
  intros Hw. destruct e as [ev|ev|ev|g|v|v]; simpl; try exact Hw.
  - unfold mousePressEvent. now destruct (button ev =? LeftButton).
  - unfold mouseMoveEvent.
    destruct (negb _); [|exact Hw]. destruct (isClick w); [|exact Hw].
    split; simpl; apply clamp01_in_unit.
  - unfold mouseReleaseEvent. now destruct (button ev =? LeftButton).
Qed.

Lemma construct_camera_in_unit (g : QSize) : camera_in_unit_square (construct g).
Proof. split; split; reflexivity. Qed.

(** C2. Starting from the freshly constructed widget, whose camera is at
    the centre (0.5, 0.5), the camera position after each event of any
    sequence of mouse presses, moves and releases (with resizes of the
    widget and setter calls in between) has both coordinates within
    [0, 1]. *)
Theorem camera_clamp_invariant (g : QSize) (evs : list ui_event) :
  represents (fx (cameraPosition (construct g))) 1 2 /\
  represents (fy (cameraPosition (construct g))) 1 2 /\
  Forall camera_in_unit_square (trajectory evs (construct g)).
Proof.
  split; [reflexivity|]. split; [reflexivity|].
  generalize (construct_camera_in_unit g).
  generalize (construct g) as w.
  induction evs as [|e evs IH]; intros w Hw; simpl.
  - constructor.
  - constructor.
    + now apply handle_camera_in_unit.
    + apply IH. now apply handle_camera_in_unit.
Qed.

(** The state of a drag: the press point is on record, the dragging flag
    is up, the widget keeps its size, and the camera is where the moves
    seen so far have put it. *)
Lemma drag_moves (press : QPoint) (moves : list QMouseEvent) (w : LightFieldWidget) :
  Forall left_held moves ->
  isClick w = true -> prevMouseClick w = press ->
  let w' := run (map Move moves) w in
  isClick w' = true /\ prevMouseClick w' = press /\ geometry w' = geometry w /\
  cameraPosition w' =
    fold_left (fun c ev => drag_step (geometry w) press c (pos ev)) moves (cameraPosition w).
Proof.
  intros Hheld. revert w.
  induction Hheld as [|ev moves Hev _ IH]; intros w Hc Hp; simpl.
  - auto.
  - unfold run in *. simpl.
    rewrite (mouseMoveEvent_dragging ev w Hev Hc).
    specialize (IH (with_cameraPosition
      (drag_step (geometry w) (prevMouseClick w) (cameraPosition w) (pos ev)) w) Hc Hp).
    simpl in IH. destruct IH as (I1 & I2 & I3 & I4).
    rewrite Hp in *. auto.
Qed.

(** C3. In a drag, that is a press of the left button followed by moves
    with the left button held and no release, the press position stays on
    record unchanged through all the moves, and the camera position after
    the moves is obtained by taking them in order, each time adding to
    each axis the offset of the cursor from the original press position
    divided by min(widget width, widget height), and clamping each axis
    to [0, 1]. *)
Theorem drag_delta_from_press_point
    (w : LightFieldWidget) (press : QMouseEvent) (moves : list QMouseEvent) :
  button press = LeftButton ->
  Forall left_held moves ->
  let w' := run (Press press :: map Move moves) w in
  prevMouseClick w' = pos press /\
  isClick w' = true /\
  cameraPosition w' =
    fold_left (fun c ev => drag_step (geometry w) (pos press) c (pos ev))
      moves (cameraPosition w).
Proof.
  intros Hb Hheld. simpl.
  change (run (Press press :: map Move moves) w)
    with (run (map Move moves) (mousePressEvent press w)).
  unfold mousePressEvent. rewrite Hb. simpl.
  destruct (drag_moves (pos press) moves
              (with_prevMouseClick (pos press) (with_isClick true w)) Hheld
              eq_refl eq_refl) as (I1 & I2 & _ & I4).
  auto.
Qed.

(** A drag from (100, 100) over a 640 by 480 widget, with two moves to
    the same point (148, 52): both are taken from the press point. *)
Lemma drag_delta_from_press_point_witness :
  let press := mkQMouseEvent LeftButton LeftButton (mkQPoint 100 100) in
  let moves := [mkQMouseEvent NoButton LeftButton (mkQPoint 148 52);
                mkQMouseEvent NoButton LeftButton (mkQPoint 148 52)] in
  let w := construct (mkQSize 640 480) in
  let w' := run (Press press :: map Move moves) w in
  prevMouseClick w' = pos press /\
  isClick w' = true /\
  cameraPosition w' =
    fold_left (fun c ev => drag_step (geometry w) (pos press) c (pos ev))
      moves (cameraPosition w).
Proof.
  apply (drag_delta_from_press_point
           (construct (mkQSize 640 480))
           (mkQMouseEvent LeftButton LeftButton (mkQPoint 100 100))
           [mkQMouseEvent NoButton LeftButton (mkQPoint 148 52);
            mkQMouseEvent NoButton LeftButton (mkQPoint 148 52)]).
  - reflexivity.
  - repeat constructor; unfold left_held; simpl; discriminate.
Defined.

(** C10. A press and a release leave the camera position as it is; a
    press only records the position and raises the dragging flag, and only
    for the left button; and a move leaves the camera position (and the
    whole widget) as it is unless the dragging flag is up and the left
    button is held. *)
Theorem drag_gating (ev : QMouseEvent) (w : LightFieldWidget) :
  cameraPosition (mousePressEvent ev w) = cameraPosition w /\
  cameraPosition (mouseReleaseEvent ev w) = cameraPosition w /\
  mousePressEvent ev w =
    (if button ev =? LeftButton
     then with_prevMouseClick (pos ev) (with_isClick true w) else w) /\
  (isClick w = false \/ Z.land (buttons ev) LeftButton = 0 ->
   mouseMoveEvent ev w = w).
Proof.
  split; [|split; [|split]].
  - unfold mousePressEvent. now destruct (button ev =? LeftButton).
  - unfold mouseReleaseEvent. now destruct (button ev =? LeftButton).
  - reflexivity.
  - apply mouseMoveEvent_idle.
Qed.

(** A move with the left button held but no press before it, on the
    freshly constructed widget. *)
Lemma drag_gating_witness :
  isClick (construct (mkQSize 640 480)) = false /\
  mouseMoveEvent (mkQMouseEvent NoButton LeftButton (mkQPoint 300 200))
    (construct (mkQSize 640 480)) = construct (mkQSize 640 480).
Proof.
  split; [reflexivity|].
  apply (drag_gating (mkQMouseEvent NoButton LeftButton (mkQPoint 300 200))
           (construct (mkQSize 640 480))).
  left. reflexivity.
Defined.

(** *** Rendering before a load *)

Lemma handle_texture (e : ui_event) (w : LightFieldWidget) :
  lightFieldTexture (handle e w) = lightFieldTexture w.
Proof.
  destruct e as [ev|ev|ev|g|v|v]; simpl; try reflexivity.
  - unfold mousePressEvent. now destruct (button ev =? LeftButton).
  - unfold mouseMoveEvent. destruct (negb _); [|reflexivity].
    now destruct (isClick w).
  - unfold mouseReleaseEvent. now destruct (button ev =? LeftButton).
Qed.

Lemma handle_imageSize (e : ui_event) (w : LightFieldWidget) :
  imageSize (handle e w) = imageSize w.
Proof.
  destruct e as [ev|ev|ev|g|v|v]; simpl; try reflexivity.
  - unfold mousePressEvent. now destruct (button ev =? LeftButton).
  - unfold mouseMoveEvent. destruct (negb _); [|reflexivity].
    now destruct (isClick w).
  - unfold mouseReleaseEvent. now destruct (button ev =? LeftButton).
Qed.

Lemma run_preserves {A} (f : LightFieldWidget -> A) (evs : list ui_event) :
  (forall e w, f (handle e w) = f w) ->
  forall w, f (run evs w) = f w.
Proof.
  intros Hf. unfold run.
  induction evs as [|e evs IH]; intros w; simpl; [reflexivity|].
  now rewrite IH, Hf.
Qed.

(** C5. While no light field has been loaded, that is in any state the
    freshly constructed widget reaches through mouse events, resizes and
    setter calls, there is no texture and a render pass issues no call at
    all: no draw call, and no change of GPU state (not even the clear). *)
Theorem no_draw_before_load (g : QSize) (evs : list ui_event) :
  let w := run evs (construct g) in
  lightFieldTexture w = None /\
  paintGL w = [] /\
  Forall (fun e => is_draw e = false) (paintGL w) /\
  Forall (fun e => is_gpu e = true -> e = GlClear) (paintGL w).
Proof.
  simpl.
  assert (H : lightFieldTexture (run evs (construct g)) = None).
  { now rewrite (run_preserves lightFieldTexture evs handle_texture). }
  unfold paintGL. rewrite H. repeat split; constructor.
Qed.

(** *** Construction and accessors *)

(** C7. After construction the focus is 0.0, the aperture is 5.0, and the
    virtual camera is at the centre (0.5, 0.5) of the unit square. *)
Theorem default_state (g : QSize) :
  let w := construct g in
  focusPoint w = S754_zero false /\
  represents (focusPoint w) 0 1 /\
  represents (apertureSize w) 5 1 /\
  represents (fx (cameraPosition w)) 1 2 /\
  represents (fy (cameraPosition w)) 1 2.
Proof. simpl. repeat split. Qed.

(** C8. For every float [v], the getter returns exactly [v] after the
    setter stored it, for the focus and for the aperture alike; the
    setters accept every value (they are total and check nothing) and
    touch no other field. *)
Theorem accessor_round_trip (v : spec_float) (w : LightFieldWidget) :
  focusPoint (setFocusPoint v w) = v /\
  apertureSize (setApertureSize v w) = v /\
  setFocusPoint v w = with_focus v w /\
  setApertureSize v w = with_aperture v w /\
  apertureSize (setFocusPoint v w) = apertureSize w /\
  focusPoint (setApertureSize v w) = focusPoint w.
Proof. repeat split. Qed.

(** *** Integer arithmetic without wrap-around *)

Lemma wrap32_id (z : Z) : INT_MIN <= z <= INT_MAX -> wrap32 z = z.
Proof.
  unfold INT_MIN, INT_MAX, wrap32. intros Hz.
  rewrite Z.mod_small by lia. lia.
Qed.

Lemma pixel_index_unique (W H k y x k' y' x' : Z) :
  0 <= y < H -> 0 <= x < W -> 0 <= y' < H -> 0 <= x' < W ->
  (k * H + y) * W + x = (k' * H + y') * W + x' ->
  k = k' /\ y = y' /\ x = x'.
Proof.
  intros Hy Hx Hy' Hx' E.
  assert (E1 : k * H + y = k' * H + y') by nia.
  assert (E2 : k = k') by nia.
  subst k'. split; [reflexivity|]. split; nia.
Qed.

Lemma pixel_index_bound (W H N k y x : Z) :
  0 <= k < N -> 0 <= y < H -> 0 <= x < W ->
  0 <= (k * H + y) * W + x < N * H * W.
Proof.
  intros Hk Hy Hx.
  assert (0 <= k * H) by nia.
  assert (k * H + y + 1 <= N * H) by nia.
  assert (0 <= (k * H + y) * W) by nia.
  assert ((k * H + y + 1) * W <= N * H * W) by nia.
  nia.
Qed.

Lemma offset_exact (W H k y x c : Z) :
  0 <= k -> 0 <= y < H -> 0 <= x < W -> 0 <= c < 3 ->
  ((k * H + y) * W + x) * 3 + 3 <= INT_MAX ->
  offset W H k y x c = ((k * H + y) * W + x) * 3 + c.
Proof.
  intros Hk Hy Hx Hc Hmax. unfold INT_MAX in Hmax.
  assert (0 <= k * H) by nia.
  assert (k * H + y <= (k * H + y) * W) by nia.
  unfold offset, int_add, int_mul.
  rewrite (wrap32_id (k * H)) by (unfold INT_MIN, INT_MAX; nia).
  rewrite (wrap32_id (k * H + y)) by (unfold INT_MIN, INT_MAX; nia).
  rewrite (wrap32_id ((k * H + y) * W)) by (unfold INT_MIN, INT_MAX; nia).
  rewrite (wrap32_id ((k * H + y) * W + x)) by (unfold INT_MIN, INT_MAX; nia).
  rewrite (wrap32_id (((k * H + y) * W + x) * 3)) by (unfold INT_MIN, INT_MAX; nia).
  apply wrap32_id. unfold INT_MIN, INT_MAX; nia.
Qed.

(** *** The monad and its loops *)

Lemma bind_ok {A B} (m : M A) (k : A -> M B) (a : A) :
  m = ([], Ok a) -> m ≫= k = k a.
Proof. intros ->. unfold mbind, proc_bind. simpl. now destruct (k a). Qed.

Lemma bind_emit {B} (e : effect) (k : unit -> M B) :
  emit e ≫= k = (e :: trace (k tt), outcome (k tt)).
Proof. unfold mbind, proc_bind. simpl. now destruct (k tt). Qed.

Lemma bind_fail {A B} (m : M A) (k : A -> M B) (t : list effect) (f : fault) :
  m = (t, Fail f) -> m ≫= k = (t, Fail f).
Proof. now intros ->. Qed.

Lemma for_loop_split {S} (body : Z -> S -> M S) (n m : nat) (lo : Z) (s : S) :
  for_loop lo (n + m) body s =
  for_loop lo n body s ≫= for_loop (lo + Z.of_nat n) m body.
Proof.
  revert lo s. induction n as [|n IH]; intros lo s.
  - change (Z.of_nat 0) with 0. rewrite Z.add_0_r.
    unfold mbind, proc_bind. simpl. now destruct (for_loop lo m body s).
  - change (for_loop lo (Datatypes.S n + m) body s)
      with (Proc.bind (body lo s) (for_loop (lo + 1) (n + m) body)).
    change (for_loop lo (Datatypes.S n) body s)
      with (Proc.bind (body lo s) (for_loop (lo + 1) n body)).
    unfold mbind, proc_bind.
    replace (lo + Z.of_nat (Datatypes.S n)) with (lo + 1 + Z.of_nat n) by lia.
    destruct (body lo s) as [t [s1|f]]; simpl; [|reflexivity].
    rewrite IH. unfold mbind, proc_bind.
    destruct (for_loop (lo + 1) n body s1) as [t1 [s2|f]]; simpl; [|reflexivity].
    destruct (for_loop (lo + 1 + Z.of_nat n) m body s2) as [t2 r2]; simpl.
    now rewrite app_assoc.
Qed.

(** A loop whose every iteration returns quietly and keeps the invariant
    returns quietly, with the invariant at the final index. *)
Lemma for_loop_inv {S} (Inv : Z -> S -> Prop) (body : Z -> S -> M S)
    (n : nat) (lo : Z) (s : S) :
  Inv lo s ->
  (forall i s, lo <= i < lo + Z.of_nat n -> Inv i s ->
     exists s', body i s = ([], Ok s') /\ Inv (i + 1) s') ->
  exists s', for_loop lo n body s = ([], Ok s') /\ Inv (lo + Z.of_nat n) s'.
Proof.
  revert lo s. induction n as [|n IH]; intros lo s Hinv Hstep.
  - exists s. split; [reflexivity|].
    change (Z.of_nat 0) with 0. now rewrite Z.add_0_r.
  - destruct (Hstep lo s ltac:(lia) Hinv) as (s1 & E1 & I1).
    destruct (IH (lo + 1) s1 I1) as (s2 & E2 & I2).
    { intros i s' Hi. apply Hstep. lia. }
    exists s2. split.
    + change (for_loop lo (Datatypes.S n) body s)
        with (body lo s ≫= for_loop (lo + 1) n body).
      now rewrite (bind_ok _ _ _ E1).
    + now replace (lo + Z.of_nat (Datatypes.S n)) with (lo + 1 + Z.of_nat n) by lia.
Qed.

(** *** Tiling *)

Lemma store_ok (v : list Z) (i b : Z) :
  0 <= i < Z.of_nat (length v) ->
  store v i b = ([], Ok (<[Z.to_nat i := b]> v)).
Proof.
  intros Hi. unfold store.
  destruct (Z.leb_spec 0 i); [|lia].
  destruct (Z.ltb_spec i (Z.of_nat (length v))); [|lia].
  reflexivity.
Qed.

Lemma at_view_ok (viewInfos : list ImageInfo) (k : nat) (info : ImageInfo) :
  viewInfos !! k = Some info -> at_view viewInfos (Z.of_nat k) = ([], Ok info).
Proof.
  intros Hk. unfold at_view.
  destruct (Z.ltb_spec (Z.of_nat k) 0); [lia|].
  now rewrite Nat2Z.id, Hk.
Qed.

Section Tiling.
(** The loop reads [viewInfos]; [seen] is a leading part of it whose
    views all have the size [W] by [H] (all of it, when the load
    succeeds). *)
Variable loadImage : string -> QImage.
Variables viewInfos seen : list ImageInfo.
Variables W H N : Z.
Hypothesis W_pos : 0 < W.
Hypothesis H_pos : 0 < H.
Hypothesis seen_leads :
  forall (k : nat) (info : ImageInfo),
    seen !! k = Some info -> viewInfos !! k = Some info.
Hypothesis seen_same_size : same_size loadImage seen W H.
Hypothesis seen_fits : Z.of_nat (length seen) <= N.
Hypothesis bytes_fit : N * H * W * 3 <= INT_MAX.

Local Abbreviation len := (N * H * W * 3).
Local Abbreviation Tiled := (tiled loadImage seen W H len).

Lemma view_index_bound (k : nat) (info : ImageInfo) :
  seen !! k = Some info -> 0 <= Z.of_nat k < N.
Proof. intros Hk. apply lookup_lt_Some in Hk. lia. Qed.

Lemma copy_pixel_tiled (k : nat) (info : ImageInfo) (y x : Z) (buf : list Z) :
  seen !! k = Some info -> 0 <= y < H -> 0 <= x < W ->
  Tiled ((Z.of_nat k * H + y) * W + x) buf ->
  exists buf',
    copy_pixel (loadImage (path info)) W H (Z.of_nat k) y x buf = ([], Ok buf') /\
    Tiled ((Z.of_nat k * H + y) * W + (x + 1)) buf'.
Proof.
  intros Hk Hy Hx (Hlen & Hdone & Hzero). rewrite Z.add_assoc.
  pose proof (view_index_bound k info Hk) as HkN.
  pose proof (pixel_index_bound W H N (Z.of_nat k) y x HkN Hy Hx) as Hcur.
  set (cur := (Z.of_nat k * H + y) * W + x) in *.
  assert (Hroom : cur * 3 + 3 <= len) by lia.
  unfold copy_pixel.
  rewrite !offset_exact by (fold cur; lia).
  fold cur.
  set (col := pixelColor (loadImage (path info)) x y).
  rewrite (bind_ok _ _ _ (store_ok buf (cur * 3 + 0) (to_uint8 (red col))
             ltac:(lia))).
  set (b1 := <[Z.to_nat (cur * 3 + 0) := to_uint8 (red col)]> buf).
  assert (L1 : length b1 = length buf) by apply length_insert.
  rewrite (bind_ok _ _ _ (store_ok b1 (cur * 3 + 1) (to_uint8 (green col))
             ltac:(lia))).
  set (b2 := <[Z.to_nat (cur * 3 + 1) := to_uint8 (green col)]> b1).
  assert (L2 : length b2 = length buf) by (unfold b2; now rewrite length_insert).
  rewrite (store_ok b2 (cur * 3 + 2) (to_uint8 (blue col)) ltac:(lia)).
  eexists. split; [reflexivity|].
  unfold b2, b1 in *. clear b1 b2.
  split; [|split].
  - rewrite !length_insert. exact Hlen.
  - intros k' info' y' x' c Hk' Hy' Hx' Hc Hlt.
    destruct (Z.eq_dec ((Z.of_nat k' * H + y') * W + x') cur) as [E|NE].
    + destruct (pixel_index_unique W H _ _ _ _ _ _ Hy' Hx' Hy Hx E)
        as (Ek & -> & ->).
      apply Nat2Z.inj in Ek. subst k'.
      assert (info' = info) by congruence. subst info'.
      fold cur. fold col.
      assert (Hc3 : c = 0 \/ c = 1 \/ c = 2) by lia.
      destruct Hc3 as [->|[->| ->]].
      * rewrite list_lookup_insert_ne by lia.
        rewrite list_lookup_insert_ne by lia.
        rewrite list_lookup_insert_eq by lia. reflexivity.
      * rewrite list_lookup_insert_ne by lia.
        rewrite list_lookup_insert_eq by (rewrite length_insert; lia).
        reflexivity.
      * rewrite list_lookup_insert_eq by (rewrite !length_insert; lia).
        reflexivity.
    + rewrite !list_lookup_insert_ne by lia.
      apply Hdone; auto. lia.
  - intros j Hj.
    rewrite !list_lookup_insert_ne by lia.
    apply Hzero. lia.
Qed.

Lemma copy_row_tiled (k : nat) (info : ImageInfo) (y : Z) (buf : list Z) :
  seen !! k = Some info -> 0 <= y < H ->
  Tiled ((Z.of_nat k * H + y) * W) buf ->
  exists buf',
    copy_row (loadImage (path info)) W H (Z.of_nat k) y buf = ([], Ok buf') /\
    Tiled ((Z.of_nat k * H + (y + 1)) * W) buf'.
Proof.
  intros Hk Hy Hbuf. unfold copy_row.
  destruct (for_loop_inv
              (fun x b => Tiled ((Z.of_nat k * H + y) * W + x) b)
              (copy_pixel (loadImage (path info)) W H (Z.of_nat k) y)
              (Z.to_nat W) 0 buf) as (buf' & E & I).
  - now rewrite Z.add_0_r.
  - intros x b Hx Hb. apply (copy_pixel_tiled k info y x b Hk Hy); [lia|exact Hb].
  - exists buf'. split; [exact E|].
    replace ((Z.of_nat k * H + (y + 1)) * W)
      with ((Z.of_nat k * H + y) * W + (0 + Z.of_nat (Z.to_nat W))) by lia.
    exact I.
Qed.

Lemma copy_view_tiled (k : nat) (info : ImageInfo) (buf : list Z) :
  seen !! k = Some info ->
  Tiled (Z.of_nat k * H * W) buf ->
  exists buf',
    copy_view loadImage viewInfos W H (Z.of_nat k) buf = ([], Ok buf') /\
    Tiled ((Z.of_nat k + 1) * H * W) buf'.
Proof.
  intros Hk Hbuf. unfold copy_view.
  rewrite (bind_ok _ _ _ (at_view_ok viewInfos k info (seen_leads k info Hk))).
  destruct (seen_same_size k info Hk) as [-> ->].
  rewrite !Z.eqb_refl. simpl.
  destruct (for_loop_inv
              (fun y b => Tiled ((Z.of_nat k * H + y) * W) b)
              (copy_row (loadImage (path info)) W H (Z.of_nat k))
              (Z.to_nat H) 0 buf) as (buf' & E & I).
  - now rewrite Z.add_0_r.
  - intros y b Hy Hb. apply (copy_row_tiled k info y b Hk); [lia|exact Hb].
  - exists buf'. split; [exact E|].
    replace ((Z.of_nat k + 1) * H * W)
      with ((Z.of_nat k * H + (0 + Z.of_nat (Z.to_nat H))) * W) by lia.
    exact I.
Qed.

Lemma fresh_buffer_tiled : Tiled 0 (replicate (Z.to_nat len) 0).
Proof.
  assert (0 <= N) by lia.
  assert (0 <= N * H) by nia.
  assert (0 <= N * H * W) by nia.
  split; [|split].
  - rewrite length_replicate. lia.
  - intros k info y x c Hk Hy Hx Hc Hlt.
    pose proof (view_index_bound k info Hk) as HkN.
    pose proof (pixel_index_bound W H N (Z.of_nat k) y x HkN Hy Hx). lia.
  - intros j Hj. apply lookup_replicate_2. lia.
Qed.

(** The copy loop over the views of [seen], from a fresh buffer. *)
Lemma copy_views_tiled :
  exists data,
    for_loop 0 (length seen) (copy_view loadImage viewInfos W H)
      (replicate (Z.to_nat len) 0) = ([], Ok data) /\
    Tiled (Z.of_nat (length seen) * H * W) data.
Proof.
  destruct (for_loop_inv
              (fun k b => Tiled (k * H * W) b)
              (copy_view loadImage viewInfos W H)
              (length seen) 0 (replicate (Z.to_nat len) 0))
    as (data & E & I).
  - exact fresh_buffer_tiled.
  - intros i b Hi Hb.
    destruct (lookup_lt_is_Some_2 seen (Z.to_nat i) ltac:(lia)) as [info Hk].
    destruct (copy_view_tiled (Z.to_nat i) info b Hk) as (b' & E' & I').
    + now rewrite Z2Nat.id by lia.
    + rewrite Z2Nat.id in E', I' by lia. eauto.
  - exists data. split; [exact E|exact I].
Qed.
End Tiling.

(** *** A load that succeeds *)

Lemma new_vector_ok (n : Z) :
  0 <= n -> new_vector n = ([], Ok (replicate (Z.to_nat n) 0)).
Proof. intros Hn. unfold new_vector. destruct (Z.ltb_spec n 0); [lia|reflexivity]. Qed.

Lemma byte_count_exact (N H W : Z) :
  0 <= N -> 0 < H -> 0 < W -> N * H * W * 3 <= INT_MAX ->
  int_mul N 1 = N /\
  int_mul (int_mul (int_mul N H) W) 3 = N * H * W * 3.
Proof.
  intros HN HH HW Hmax. unfold INT_MAX in Hmax.
  assert (0 <= N * H) by nia.
  assert (N <= N * H) by nia.
  assert (N * H <= N * H * W) by nia.
  unfold int_mul.
  rewrite Z.mul_1_r.
  rewrite (wrap32_id N) by (unfold INT_MIN, INT_MAX; lia).
  rewrite (wrap32_id (N * H)) by (unfold INT_MIN, INT_MAX; lia).
  rewrite (wrap32_id (N * H * W)) by (unfold INT_MIN, INT_MAX; lia).
  rewrite (wrap32_id (N * H * W * 3)) by (unfold INT_MIN, INT_MAX; lia).
  auto.
Qed.

Lemma raster_not_null (img : QImage) : 0 < width img -> isNull img = false.
Proof. destruct img; simpl; [lia|reflexivity]. Qed.

(** With views that all decode to [W] by [H] rasters, no more views than
    [rows * cols], and a byte count that an [int] holds, [setLightField]
    returns: it issues [load_trace], stores the size and the texture, and
    the texture's bytes are tiled up to the last view given. *)
Lemma setLightField_loads (loadImage : string -> QImage)
    (viewInfos : list ImageInfo) (rows cols W H : Z) (w : LightFieldWidget) :
  viewInfos <> [] ->
  0 < W -> 0 < H ->
  same_size loadImage viewInfos W H ->
  Z.of_nat (length viewInfos) <= rows * cols ->
  rows * cols * H * W * 3 <= INT_MAX ->
  exists data,
    setLightField loadImage viewInfos rows cols w =
      (load_trace W H (rows * cols) data,
       Ok (with_texture (Some (make_texture W H (rows * cols) data))
             (with_imageSize (mkQSize W H) (with_grid rows cols w)))) /\
    tiled loadImage viewInfos W H (rows * cols * H * W * 3)
      (Z.of_nat (length viewInfos) * H * W) data.
Proof.
  intros Hne HW HH Hsame Hfit Hmax.
  destruct viewInfos as [|first rest] eqn:Ev; [contradiction|]. rewrite <- Ev in *.
  assert (H0 : viewInfos !! 0%nat = Some first) by now rewrite Ev.
  destruct (Hsame 0%nat first H0) as [EW EH].
  assert (HN : 0 <= rows * cols) by lia.
  destruct (byte_count_exact (rows * cols) H W HN HH HW Hmax) as [_ Ebytes].
  assert (EN : int_mul rows cols = rows * cols).
  { unfold int_mul. apply wrap32_id. unfold INT_MIN, INT_MAX in *. nia. }
  destruct (copy_views_tiled loadImage viewInfos viewInfos W H (rows * cols)
              HW HH (fun _ _ E => E) Hsame Hfit Hmax) as (data & Eloop & Htiled).
  exists data. split; [|exact Htiled].
  unfold setLightField.
  rewrite bind_emit.
  rewrite (bind_ok _ _ _ (at_view_ok viewInfos 0 first H0)).
  rewrite (raster_not_null (loadImage (path first))) by lia.
  rewrite bind_emit. rewrite EW, EH, EN, Ebytes.
  assert (Hlen : 0 <= rows * cols * H * W * 3).
  { assert (0 <= rows * cols * H) by nia.
    assert (0 <= rows * cols * H * W) by nia. lia. }
  rewrite (bind_ok _ _ _ (new_vector_ok _ Hlen)).
  rewrite (bind_ok _ _ _ Eloop).
  reflexivity.
Qed.

Lemma channel_byte (c : Z) (col : QColor) :
  color_in_range col -> to_uint8 (channel c col) = channel c col.
Proof.
  intros (Hr & Hg & Hb). unfold to_uint8, channel.
  destruct (c =? 0); [|destruct (c =? 1)]; apply Z.mod_small; lia.
Qed.

Lemma sample_grid_valid : valid_grid Sample.decode Sample.grid 1 2 2 1.
Proof.
  unfold valid_grid.
  split; [lia|]. split; [lia|]. split; [lia|]. split; [reflexivity|].
  split; [|split].
  - intros k info Hk.
    destruct k as [|[|k]]; simpl in Hk; inversion Hk; subst; split; reflexivity.
  - intros k info Hk x y Hx Hy.
    destruct k as [|[|k]]; simpl in Hk; inversion Hk; subst;
      change (0 <= x < 2) in Hx; unfold color_in_range; simpl; lia.
  - unfold INT_MAX. lia.
Qed.

(** C1. For a valid grid of [rows * cols] images of size [W] by [H],
    [setLightField] returns, uploads one byte buffer, and keeps it as the
    texture's data; for every view index [k] in [0, rows * cols) there is
    an input image [k], and for all [x] in [0, W), [y] in [0, H) and
    channels [c] (0 red, 1 green, 2 blue) the buffer holds at offset
    [((k * H + y) * W + x) * 3 + c] channel [c] of pixel [(x, y)] of that
    image. *)
Theorem tiling_correctness (loadImage : string -> QImage)
    (viewInfos : list ImageInfo) (rows cols W H : Z) (w : LightFieldWidget) :
  valid_grid loadImage viewInfos rows cols W H ->
  exists (data : list Z) (w' : LightFieldWidget),
    setLightField loadImage viewInfos rows cols w =
      (load_trace W H (rows * cols) data, Ok w') /\
    tex_data <$> lightFieldTexture w' = Some data /\
    Z.of_nat (length data) = rows * cols * H * W * 3 /\
    forall k : Z, 0 <= k < rows * cols ->
      exists info : ImageInfo,
        viewInfos !! Z.to_nat k = Some info /\
        forall x y c : Z, 0 <= x < W -> 0 <= y < H -> 0 <= c < 3 ->
          data !! Z.to_nat (((k * H + y) * W + x) * 3 + c) =
            Some (channel c (pixelColor (loadImage (path info)) x y)).
Proof.
  intros (HW & HH & HN & Hlen & Hsame & Hrange & Hmax).
  destruct (setLightField_loads loadImage viewInfos rows cols W H w)
    as (data & E & Hl & Hdone & _); auto; try lia.
  { intros ->. simpl in Hlen. lia. }
  exists data. eexists. split; [exact E|].
  split; [reflexivity|]. split; [exact Hl|].
  intros k Hk.
  destruct (lookup_lt_is_Some_2 viewInfos (Z.to_nat k) ltac:(lia)) as [info Hinfo].
  exists info. split; [exact Hinfo|].
  intros x y c Hx Hy Hc.
  pose proof (Hdone (Z.to_nat k) info y x c Hinfo Hy Hx Hc) as Hbyte.
  rewrite Z2Nat.id in Hbyte by lia.
  rewrite Hbyte.
  - f_equal. apply channel_byte. apply (Hrange _ _ Hinfo).
    + destruct (Hsame _ _ Hinfo) as [-> _]. exact Hx.
    + destruct (Hsame _ _ Hinfo) as [_ ->]. exact Hy.
  - rewrite Hlen.
    pose proof (pixel_index_bound W H (rows * cols) k y x Hk Hy Hx). lia.
Qed.

(** The two-view sample grid, one row by two columns of 2 by 1 images. *)
Lemma tiling_correctness_witness :
  valid_grid Sample.decode Sample.grid 1 2 2 1 /\
  exists (data : list Z) (w' : LightFieldWidget),
    setLightField Sample.decode Sample.grid 1 2 (construct (mkQSize 640 480)) =
      (load_trace 2 1 (1 * 2) data, Ok w') /\
    tex_data <$> lightFieldTexture w' = Some data /\
    Z.of_nat (length data) = 1 * 2 * 1 * 2 * 3 /\
    forall k : Z, 0 <= k < 1 * 2 ->
      exists info : ImageInfo,
        Sample.grid !! Z.to_nat k = Some info /\
        forall x y c : Z, 0 <= x < 2 -> 0 <= y < 1 -> 0 <= c < 3 ->
          data !! Z.to_nat (((k * 1 + y) * 2 + x) * 3 + c) =
            Some (channel c (pixelColor (Sample.decode (path info)) x y)).
Proof.
  split.
  - exact sample_grid_valid.
  - exact (tiling_correctness Sample.decode Sample.grid 1 2 2 1
             (construct (mkQSize 640 480)) sample_grid_valid).
Defined.

Lemma sample_grid_same_size : same_size Sample.decode Sample.grid 2 1.
Proof. destruct sample_grid_valid as (_ & _ & _ & _ & Hs & _). exact Hs. Qed.

(** C9. When fewer views are given than [rows * cols] (and they all have
    the first one's size), [setLightField] still returns, with a buffer of
    [rows * cols * H * W * 3] bytes: the layers of the views given hold
    their pixels, channel by channel as bytes, and every byte of the
    remaining layers, from offset [viewInfos.size() * H * W * 3] on, is 0. *)
Theorem missing_views_zero_filled (loadImage : string -> QImage)
    (viewInfos : list ImageInfo) (rows cols W H : Z) (w : LightFieldWidget) :
  viewInfos <> [] ->
  0 < W -> 0 < H ->
  same_size loadImage viewInfos W H ->
  Z.of_nat (length viewInfos) < rows * cols ->
  rows * cols * H * W * 3 <= INT_MAX ->
  exists (data : list Z) (w' : LightFieldWidget),
    setLightField loadImage viewInfos rows cols w =
      (load_trace W H (rows * cols) data, Ok w') /\
    tex_data <$> lightFieldTexture w' = Some data /\
    Z.of_nat (length data) = rows * cols * H * W * 3 /\
    (forall (k : nat) (info : ImageInfo) (x y c : Z),
       viewInfos !! k = Some info ->
       0 <= x < W -> 0 <= y < H -> 0 <= c < 3 ->
       data !! Z.to_nat (((Z.of_nat k * H + y) * W + x) * 3 + c) =
         Some (to_uint8 (channel c (pixelColor (loadImage (path info)) x y)))) /\
    (forall j : Z,
       Z.of_nat (length viewInfos) * H * W * 3 <= j < rows * cols * H * W * 3 ->
       data !! Z.to_nat j = Some 0).
Proof.
  intros Hne HW HH Hsame Hfew Hmax.
  destruct (setLightField_loads loadImage viewInfos rows cols W H w)
    as (data & E & Hl & Hdone & Hzero); auto; try lia.
  exists data. eexists. split; [exact E|].
  split; [reflexivity|]. split; [exact Hl|]. split.
  - intros k info x y c Hk Hx Hy Hc.
    apply Hdone; auto.
    apply lookup_lt_Some in Hk.
    pose proof (pixel_index_bound W H (Z.of_nat (length viewInfos))
                  (Z.of_nat k) y x ltac:(lia) Hy Hx). lia.
  - intros j Hj. apply Hzero. lia.
Qed.

(** The two sample views loaded into a two by two grid. *)
Lemma missing_views_zero_filled_witness :
  exists (data : list Z) (w' : LightFieldWidget),
    setLightField Sample.decode Sample.grid 2 2 (construct (mkQSize 640 480)) =
      (load_trace 2 1 (2 * 2) data, Ok w') /\
    tex_data <$> lightFieldTexture w' = Some data /\
    Z.of_nat (length data) = 2 * 2 * 1 * 2 * 3 /\
    (forall (k : nat) (info : ImageInfo) (x y c : Z),
       Sample.grid !! k = Some info ->
       0 <= x < 2 -> 0 <= y < 1 -> 0 <= c < 3 ->
       data !! Z.to_nat (((Z.of_nat k * 1 + y) * 2 + x) * 3 + c) =
         Some (to_uint8 (channel c (pixelColor (Sample.decode (path info)) x y)))) /\
    (forall j : Z,
       Z.of_nat (length Sample.grid) * 1 * 2 * 3 <= j < 2 * 2 * 1 * 2 * 3 ->
       data !! Z.to_nat j = Some 0).
Proof.
  apply (missing_views_zero_filled Sample.decode Sample.grid 2 2 2 1
           (construct (mkQSize 640 480))).
  - discriminate.
  - lia.
  - lia.
  - exact sample_grid_same_size.
  - simpl. lia.
  - unfold INT_MAX. lia.
Defined.

(** *** The preferred size *)

Lemma setLightField_imageSize (loadImage : string -> QImage)
    (viewInfos : list ImageInfo) (rows cols : Z) (w w' : LightFieldWidget)
    (first : ImageInfo) :
  outcome (setLightField loadImage viewInfos rows cols w) = Ok w' ->
  viewInfos !! 0%nat = Some first ->
  isNull (loadImage (path first)) = false /\
  imageSize w' =
    mkQSize (width (loadImage (path first))) (height (loadImage (path first))) /\
  is_Some (lightFieldTexture w').
Proof.
  intros Hok H0. unfold setLightField in Hok.
  rewrite bind_emit in Hok.
  rewrite (bind_ok _ _ _ (at_view_ok viewInfos 0 first H0)) in Hok.
  destruct (isNull (loadImage (path first))); [discriminate Hok|].
  split; [reflexivity|].
  rewrite bind_emit in Hok.
  unfold outcome, trace, mbind, proc_bind, Proc.bind in Hok. simpl in Hok.
  destruct (new_vector _) as [t1 [d1|f1]]; [|discriminate Hok].
  destruct (for_loop _ _ _ d1) as [t2 [d2|f2]]; [|discriminate Hok].
  simpl in Hok. inversion Hok; subst. split; [reflexivity|]. simpl. eauto.
Qed.

Lemma raster_dims_pos (img : QImage) :
  isNull img = false -> 0 < width img /\ 0 < height img.
Proof. destruct img; simpl; [discriminate|lia]. Qed.

Lemma int_div_exact (a b : Z) :
  0 <= a <= INT_MAX -> 0 < b -> int_div a b = Some (Z.quot a b).
Proof.
  intros Ha Hb. unfold int_div.
  destruct (Z.eqb_spec b 0); [lia|].
  f_equal. apply wrap32_id.
  pose proof (Z.quot_pos a b ltac:(lia) Hb).
  assert (Z.quot a b <= a).
  { apply Z.quot_le_upper_bound; [exact Hb|]. nia. }
  unfold INT_MIN, INT_MAX in *. lia.
Qed.

(** C6. After a load whose first image has size [W] by [H] (with
    [512 * W] within [int]), [sizeHint] is height 512 and width
    [512 * W / H] truncated; [minimumSizeHint] is the same value; and
    while no light field has been loaded both are 512 by 512. *)
Theorem size_hint_computation (loadImage : string -> QImage)
    (viewInfos : list ImageInfo) (rows cols : Z) (w w' : LightFieldWidget)
    (first : ImageInfo) (g : QSize) (evs : list ui_event) :
  outcome (setLightField loadImage viewInfos rows cols w) = Ok w' ->
  viewInfos !! 0%nat = Some first ->
  512 * width (loadImage (path first)) <= INT_MAX ->
  sizeHint w' =
    Some (mkQSize
            (Z.quot (512 * width (loadImage (path first)))
                    (height (loadImage (path first))))
            512) /\
  minimumSizeHint w' = sizeHint w' /\
  sizeHint (run evs (construct g)) = Some (mkQSize 512 512) /\
  minimumSizeHint (run evs (construct g)) = Some (mkQSize 512 512).
Proof.
  intros Hok H0 Hmax.
  destruct (setLightField_imageSize _ _ _ _ _ _ _ Hok H0) as (Hnn & Hsz & _).
  assert (Hdef : sizeHint (run evs (construct g)) = Some (mkQSize 512 512)).
  { unfold sizeHint.
    now rewrite (run_preserves imageSize evs handle_imageSize). }
  split; [|split; [reflexivity|split; [exact Hdef|exact Hdef]]].
  destruct (raster_dims_pos _ Hnn) as [HW HH].
  unfold sizeHint. rewrite Hsz. cbn [size_width size_height].
  unfold int_mul. rewrite wrap32_id by (unfold INT_MIN, INT_MAX in *; lia).
  rewrite int_div_exact by lia. reflexivity.
Qed.

(** The sample grid: 2 by 1 images give a hint of 1024 by 512. *)
Lemma size_hint_computation_witness :
  sizeHint
    (with_texture
       (Some (make_texture 2 1 2 [10; 20; 30; 11; 21; 31; 110; 120; 130; 111; 121; 131]))
       (with_imageSize (mkQSize 2 1) (with_grid 1 2 (construct (mkQSize 640 480)))))
    = Some (mkQSize 1024 512) /\
  sizeHint (run [] (construct (mkQSize 640 480))) = Some (mkQSize 512 512).
Proof.
  destruct (size_hint_computation Sample.decode Sample.grid 1 2
              (construct (mkQSize 640 480))
              (with_texture
                 (Some (make_texture 2 1 2
                          [10; 20; 30; 11; 21; 31; 110; 120; 130; 111; 121; 131]))
                 (with_imageSize (mkQSize 2 1)
                    (with_grid 1 2 (construct (mkQSize 640 480)))))
              (mkImageInfo "a.png") (mkQSize 640 480) [])
    as (H1 & _ & H3 & _).
  - reflexivity.
  - reflexivity.
  - unfold INT_MAX. simpl. lia.
  - split; [exact H1|exact H3].
Defined.

(** *** A load that is refused *)

Lemma size_differs_iff (loadImage : string -> QImage) (W H : Z) (info : ImageInfo) :
  size_differs loadImage W H info <->
  width (loadImage (path info)) <> W \/ height (loadImage (path info)) <> H.
Proof.
  unfold size_differs.
  destruct (Z.eqb_spec (width (loadImage (path info))) W);
    destruct (Z.eqb_spec (height (loadImage (path info))) H); simpl;
    intuition congruence.
Qed.

#[local] Instance size_differs_dec (loadImage : string -> QImage) (W H : Z)
    (info : ImageInfo) : Decision (size_differs loadImage W H info).
Proof. unfold size_differs. apply _. Defined.

(** The first view of the wrong size: the views before it have the right
    one. *)
Lemma first_size_mismatch (loadImage : string -> QImage) (W H : Z)
    (viewInfos : list ImageInfo) (k : nat) (info : ImageInfo) :
  viewInfos !! k = Some info -> size_differs loadImage W H info ->
  exists (m : nat) (bad : ImageInfo),
    viewInfos !! m = Some bad /\ size_differs loadImage W H bad /\
    same_size loadImage (take m viewInfos) W H.
Proof.
  intros Hk Hbad.
  destruct (list_find_elem_of (size_differs loadImage W H) viewInfos info)
    as [[m bad] Hfind]; [eapply list_elem_of_lookup_2; eauto|exact Hbad|].
  apply list_find_Some in Hfind as (Hm & Hb & Hbefore).
  exists m, bad. split; [exact Hm|]. split; [exact Hb|].
  intros j y Hj. apply lookup_take_Some in Hj as [Hj Hlt].
  specialize (Hbefore j y Hj Hlt).
  rewrite size_differs_iff in Hbefore.
  destruct (Z.eq_dec (width (loadImage (path y))) W);
    destruct (Z.eq_dec (height (loadImage (path y))) H); tauto.
Qed.

(** The copy loop stops at the first view of the wrong size, after the
    diagnostic, with [std::abort]. *)
Lemma copy_views_abort (loadImage : string -> QImage)
    (viewInfos : list ImageInfo) (W H N : Z) (k : nat) (info : ImageInfo) :
  0 < W -> 0 < H ->
  viewInfos !! k = Some info -> size_differs loadImage W H info ->
  Z.of_nat (length viewInfos) <= N ->
  N * H * W * 3 <= INT_MAX ->
  for_loop 0 (length viewInfos) (copy_view loadImage viewInfos W H)
    (replicate (Z.to_nat (N * H * W * 3)) 0) =
  ([QDebug "[ERROR] image size invalid!!"], Fail Abort).
Proof.
  intros HW HH Hk Hbad Hfit Hmax.
  destruct (first_size_mismatch loadImage W H viewInfos k info Hk Hbad)
    as (m & bad & Hm & Hb & Hsame).
  pose proof (lookup_lt_Some _ _ _ Hm) as Hlt.
  assert (Hlen : length (take m viewInfos) = m) by (apply length_take_le; lia).
  destruct (copy_views_tiled loadImage viewInfos (take m viewInfos) W H N HW HH)
    as (data & Eloop & _); auto.
  { intros j y Hj. now apply lookup_take_Some in Hj as [Hj _]. }
  { lia. }
  rewrite Hlen in Eloop.
  replace (length viewInfos) with (m + Datatypes.S (length viewInfos - m - 1))%nat
    by lia.
  rewrite for_loop_split, (bind_ok _ _ _ Eloop).
  rewrite Z.add_0_l.
  change (for_loop (Z.of_nat m) (Datatypes.S (length viewInfos - m - 1))
            (copy_view loadImage viewInfos W H) data)
    with (copy_view loadImage viewInfos W H (Z.of_nat m) data
            ≫= for_loop (Z.of_nat m + 1) (length viewInfos - m - 1)
                 (copy_view loadImage viewInfos W H)).
  apply bind_fail. unfold copy_view.
  rewrite (bind_ok _ _ _ (at_view_ok viewInfos m bad Hm)).
  unfold size_differs in Hb. rewrite Hb. reflexivity.
Qed.

(** C4. If some image of the grid differs in width or height from the
    first one (the grid having no more images than [rows * cols], and its
    byte count fitting an [int]), [setLightField] takes the fatal path: it
    ends in [std::abort], the last thing it did was to print a diagnostic,
    and before that it neither created a texture, nor allocated storage
    for one, nor uploaded data, nor issued any other GPU call. *)
Theorem dimension_mismatch_rejected (loadImage : string -> QImage)
    (viewInfos : list ImageInfo) (rows cols : Z) (w : LightFieldWidget)
    (first : ImageInfo) (k : nat) (info : ImageInfo) :
  viewInfos !! 0%nat = Some first ->
  viewInfos !! k = Some info ->
  width (loadImage (path info)) <> width (loadImage (path first)) \/
  height (loadImage (path info)) <> height (loadImage (path first)) ->
  Z.of_nat (length viewInfos) <= rows * cols ->
  rows * cols * height (loadImage (path first)) * width (loadImage (path first)) * 3
    <= INT_MAX ->
  let r := setLightField loadImage viewInfos rows cols w in
  outcome r = Fail Abort /\
  (exists (before : list effect) (msg : string), trace r = before ++ [QDebug msg]) /\
  Forall (fun e => is_texture_upload e = false) (trace r) /\
  Forall (fun e => is_gpu e = false) (trace r).
Proof.
  intros H0 Hk Hdiff Hfit Hmax. simpl.
  unfold setLightField.
  rewrite bind_emit.
  rewrite (bind_ok _ _ _ (at_view_ok viewInfos 0 first H0)).
  destruct (isNull (loadImage (path first))) eqn:Hnull.
  - rewrite bind_emit. simpl. split; [reflexivity|]. split.
    + exists [MakeCurrent]. eexists. reflexivity.
    + split; repeat constructor.
  - destruct (raster_dims_pos _ Hnull) as [HW HH].
    set (W := width (loadImage (path first))) in *.
    set (H := height (loadImage (path first))) in *.
    assert (HN : 0 <= rows * cols) by lia.
    destruct (byte_count_exact (rows * cols) H W HN HH HW Hmax) as [_ Ebytes].
    assert (EN : int_mul rows cols = rows * cols).
    { unfold int_mul. apply wrap32_id. unfold INT_MIN, INT_MAX in *. nia. }
    assert (Hlen : 0 <= rows * cols * H * W * 3).
    { assert (0 <= rows * cols * H) by nia.
      assert (0 <= rows * cols * H * W) by nia. lia. }
    rewrite bind_emit, EN, Ebytes.
    rewrite (bind_ok _ _ _ (new_vector_ok _ Hlen)).
    rewrite (bind_fail _ _ _ _
               (copy_views_abort loadImage viewInfos W H (rows * cols) k info
                  HW HH Hk (proj2 (size_differs_iff loadImage W H info) Hdiff)
                  Hfit Hmax)).
    simpl. split; [reflexivity|]. split.
    + exists [MakeCurrent; UpdateGeometry]. eexists. reflexivity.
    + split; repeat constructor.
Qed.

(** The ragged sample: the second view is 1 by 1, the first 2 by 1. *)
Lemma dimension_mismatch_rejected_witness :
  let r := setLightField Sample.decode Sample.ragged 1 2 (construct (mkQSize 640 480)) in
  outcome r = Fail Abort /\
  (exists (before : list effect) (msg : string), trace r = before ++ [QDebug msg]) /\
  Forall (fun e => is_texture_upload e = false) (trace r) /\
  Forall (fun e => is_gpu e = false) (trace r).
Proof.
  apply (dimension_mismatch_rejected Sample.decode Sample.ragged 1 2
           (construct (mkQSize 640 480))
           (mkImageInfo "a.png") 1%nat (mkImageInfo "small.png")).
  - reflexivity.
  - reflexivity.
  - left. simpl. lia.
  - simpl. lia.
  - unfold INT_MAX. simpl. lia.
Defined.

(** ** Further properties of the widget *)

Import Lifecycle.

(** *** [setLightField], path by path *)

(** The paths of [setLightField] once [viewInfos[0]] exists. *)
Lemma setLightField_paths (loadImage : string -> QImage)
    (viewInfos : list ImageInfo) (rows cols : Z) (w : LightFieldWidget)
    (first : ImageInfo) :
  viewInfos !! 0%nat = Some first ->
  setLightField loadImage viewInfos rows cols w =
    if isNull (loadImage (path first)) then
      ([MakeCurrent; QDebug ("[ERROR] failed to load image: " ++ path first)],
       Fail Abort)
    else
      let W := width (loadImage (path first)) in
      let H := height (loadImage (path first)) in
      if byte_count rows cols W H <? 0 then
        ([MakeCurrent; UpdateGeometry], Fail LengthError)
      else
        match for_loop 0 (length viewInfos) (copy_view loadImage viewInfos W H)
                (replicate (Z.to_nat (byte_count rows cols W H)) 0) with
        | (t, Ok data) =>
            (MakeCurrent :: UpdateGeometry :: t ++ skipn 2 (load_trace W H (int_mul rows cols) data),
             Ok (with_texture (Some (make_texture W H (int_mul rows cols) data))
                   (with_imageSize (mkQSize W H) (with_grid rows cols w))))
        | (t, Fail f) => (MakeCurrent :: UpdateGeometry :: t, Fail f)
        end.
Proof.
  intros H0. unfold setLightField.
  rewrite bind_emit.
  rewrite (bind_ok _ _ _ (at_view_ok viewInfos 0 first H0)).
  destruct (isNull (loadImage (path first))); [reflexivity|].
  rewrite bind_emit. unfold new_vector. fold (byte_count rows cols
    (width (loadImage (path first))) (height (loadImage (path first)))).
  cbv zeta.
  destruct (byte_count rows cols _ _ <? 0); [reflexivity|].
  unfold mbind, proc_bind, mret, proc_ret, Proc.bind, Proc.ret, trace, outcome.
  simpl.
  destruct (for_loop 0 (length viewInfos) _ _) as [t [data|f]]; reflexivity.
Qed.

Lemma setLightField_empty (loadImage : string -> QImage) (rows cols : Z)
    (w : LightFieldWidget) :
  setLightField loadImage [] rows cols w = ([MakeCurrent], Fail OutOfBounds).
Proof. reflexivity. Qed.

(** X1. When the first image does not decode, [setLightField] prints the
    diagnostic that names its path and aborts, whatever the rest of the
    list and the grid shape are; only [makeCurrent] came before. *)
Theorem first_image_decode_failure (loadImage : string -> QImage)
    (viewInfos : list ImageInfo) (rows cols : Z) (w : LightFieldWidget)
    (first : ImageInfo) :
  viewInfos !! 0%nat = Some first ->
  isNull (loadImage (path first)) = true ->
  setLightField loadImage viewInfos rows cols w =
    ([MakeCurrent; QDebug ("[ERROR] failed to load image: " ++ path first)],
     Fail Abort).
Proof.
  intros H0 Hnull.
  now rewrite (setLightField_paths _ _ _ _ _ _ H0), Hnull.
Qed.

Lemma first_image_decode_failure_witness :
  setLightField Sample.decode [mkImageInfo "missing.png"; mkImageInfo "a.png"] 1 2
    (construct (mkQSize 640 480)) =
    ([MakeCurrent; QDebug "[ERROR] failed to load image: missing.png"], Fail Abort).
Proof.
  apply (first_image_decode_failure Sample.decode
           [mkImageInfo "missing.png"; mkImageInfo "a.png"] 1 2
           (construct (mkQSize 640 480)) (mkImageInfo "missing.png"));
    reflexivity.
Defined.

(** *** What the copy loop does on any input *)

Lemma bind_inv_ok {A B} (m : M A) (k : A -> M B) (t : list effect) (b : B) :
  m ≫= k = (t, Ok b) ->
  exists t1 a t2, m = (t1, Ok a) /\ k a = (t2, Ok b) /\ t = t1 ++ t2.
Proof.
  unfold mbind, proc_bind, Proc.bind.
  destruct m as [t1 [a|f]]; [|discriminate].
  destruct (k a) as [t2 r] eqn:Ek. intros E. inversion E; subst.
  exists t1, a, t2. auto.
Qed.

Lemma bind_quiet {A B} (m : M A) (k : A -> M B) :
  quiet m -> (forall a, quiet (k a)) -> quiet (m ≫= k).
Proof.
  unfold mbind, proc_bind, Proc.bind.
  destruct m as [t [a|f]]; simpl; intros Hm Hk.
  - subst t. specialize (Hk a). now destruct (k a).
  - exact Hm.
Qed.

Lemma for_loop_quiet {S} (body : Z -> S -> M S) (n : nat) (lo : Z) (s : S) :
  (forall i s, quiet (body i s)) -> quiet (for_loop lo n body s).
Proof.
  intros Hbody. revert lo s.
  induction n as [|n IH]; intros lo s; [reflexivity|].
  change (for_loop lo (Datatypes.S n) body s)
    with (body lo s ≫= for_loop (lo + 1) n body).
  apply bind_quiet; auto.
Qed.

(** Whatever a loop's iterations leave unchanged when they return, the
    loop leaves unchanged when it returns. *)
Lemma for_loop_keeps {S B} (g : S -> B) (body : Z -> S -> M S)
    (n : nat) (lo : Z) (s s' : S) (t : list effect) :
  (forall i s t s', body i s = (t, Ok s') -> g s' = g s) ->
  for_loop lo n body s = (t, Ok s') -> g s' = g s.
Proof.
  intros Hbody. revert lo s t.
  induction n as [|n IH]; intros lo s t E.
  - inversion E. reflexivity.
  - change (for_loop lo (Datatypes.S n) body s)
      with (body lo s ≫= for_loop (lo + 1) n body) in E.
    apply bind_inv_ok in E as (t1 & s1 & t2 & E1 & E2 & _).
    rewrite (IH _ _ _ E2). eapply Hbody, E1.
Qed.

(** A loop that returns has had every one of its iterations return. *)
Lemma for_loop_each {S} (Q : Z -> Prop) (body : Z -> S -> M S)
    (n : nat) (lo : Z) (s s' : S) (t : list effect) :
  (forall i s t s', body i s = (t, Ok s') -> Q i) ->
  for_loop lo n body s = (t, Ok s') ->
  forall i, lo <= i < lo + Z.of_nat n -> Q i.
Proof.
  intros Hbody. revert lo s t.
  induction n as [|n IH]; intros lo s t E i Hi; [lia|].
  change (for_loop lo (Datatypes.S n) body s)
    with (body lo s ≫= for_loop (lo + 1) n body) in E.
  apply bind_inv_ok in E as (t1 & s1 & t2 & E1 & E2 & _).
  destruct (Z.eq_dec i lo) as [->|Hne].
  - eapply Hbody, E1.
  - apply (IH _ _ _ E2). lia.
Qed.

Lemma store_quiet (v : list Z) (i b : Z) : quiet (store v i b).
Proof.
  unfold store. destruct (_ && _); simpl; auto.
Qed.

Lemma store_length (v v' : list Z) (i b : Z) (t : list effect) :
  store v i b = (t, Ok v') -> length v' = length v.
Proof.
  unfold store. destruct (_ && _); intros E; inversion E.
  apply length_insert.
Qed.

Lemma copy_pixel_quiet (img : QImage) (W H k y x : Z) (buf : list Z) :
  quiet (copy_pixel img W H k y x buf).
Proof.
  unfold copy_pixel.
  apply bind_quiet; [apply store_quiet|intros d1].
  apply bind_quiet; [apply store_quiet|intros d2]. apply store_quiet.
Qed.

Lemma copy_pixel_length (img : QImage) (W H k y x : Z) (buf buf' : list Z)
    (t : list effect) :
  copy_pixel img W H k y x buf = (t, Ok buf') -> length buf' = length buf.
Proof.
  unfold copy_pixel. intros E.
  apply bind_inv_ok in E as (t1 & d1 & t2 & E1 & E & _).
  apply bind_inv_ok in E as (t3 & d2 & t4 & E2 & E3 & _).
  apply store_length in E1, E2, E3. congruence.
Qed.

Lemma copy_view_quiet (loadImage : string -> QImage) (viewInfos : list ImageInfo)
    (W H k : Z) (buf : list Z) :
  quiet (copy_view loadImage viewInfos W H k buf).
Proof.
  unfold copy_view. apply bind_quiet.
  - unfold at_view. destruct (k <? 0); [simpl; auto|].
    destruct (viewInfos !! Z.to_nat k); simpl; auto.
  - intros info. destruct (_ || _).
    + right. eexists. split; reflexivity.
    + apply for_loop_quiet. intros y b. apply for_loop_quiet.
      intros x b'. apply copy_pixel_quiet.
Qed.

Lemma copy_view_inv (loadImage : string -> QImage) (viewInfos : list ImageInfo)
    (W H k : Z) (buf buf' : list Z) (t : list effect) :
  copy_view loadImage viewInfos W H k buf = (t, Ok buf') ->
  length buf' = length buf /\
  exists info, viewInfos !! Z.to_nat k = Some info /\
    width (loadImage (path info)) = W /\ height (loadImage (path info)) = H.
Proof.
  unfold copy_view. intros E.
  apply bind_inv_ok in E as (t1 & info & t2 & E1 & E2 & _).
  unfold at_view in E1. destruct (k <? 0); [discriminate|].
  destruct (viewInfos !! Z.to_nat k) as [info'|] eqn:Hk; [|discriminate].
  inversion E1; subst info'.
  destruct (Z.eqb_spec (width (loadImage (path info))) W) as [EW|];
    [|discriminate E2].
  destruct (Z.eqb_spec (height (loadImage (path info))) H) as [EH|];
    [|discriminate E2].
  simpl in E2. split; [|eauto].
  apply (for_loop_keeps (@length Z) _ _ _ _ _ _) in E2; [exact E2|].
  intros y b ty b' Ey. unfold copy_row in Ey.
  apply (for_loop_keeps (@length Z) _ _ _ _ _ _) in Ey; [exact Ey|].
  intros x c tx c' Ex. eapply copy_pixel_length, Ex.
Qed.

(** *** A call that returns *)

(** Everything a returning [setLightField] tells about its input and its
    result. *)
Lemma setLightField_returns (loadImage : string -> QImage)
    (viewInfos : list ImageInfo) (rows cols : Z) (w w' : LightFieldWidget) :
  outcome (setLightField loadImage viewInfos rows cols w) = Ok w' ->
  exists (first : ImageInfo) (data : list Z),
    viewInfos !! 0%nat = Some first /\
    isNull (loadImage (path first)) = false /\
    same_size loadImage viewInfos
      (width (loadImage (path first))) (height (loadImage (path first))) /\
    Z.of_nat (length data) =
      byte_count rows cols
        (width (loadImage (path first))) (height (loadImage (path first))) /\
    setLightField loadImage viewInfos rows cols w =
      (load_trace (width (loadImage (path first))) (height (loadImage (path first)))
         (int_mul rows cols) data, Ok w') /\
    w' = with_texture
           (Some (make_texture (width (loadImage (path first)))
                    (height (loadImage (path first))) (int_mul rows cols) data))
           (with_imageSize
              (mkQSize (width (loadImage (path first)))
                 (height (loadImage (path first))))
              (with_grid rows cols w)).
Proof.
  intros Hok.
  destruct viewInfos as [|first rest] eqn:Ev; [discriminate Hok|].
  rewrite <- Ev in *.
  assert (H0 : viewInfos !! 0%nat = Some first) by now rewrite Ev.
  pose proof (setLightField_paths loadImage viewInfos rows cols w first H0) as Ep.
  rewrite Ep in Hok.
  destruct (isNull (loadImage (path first))) eqn:Hnull; [discriminate Hok|].
  cbv zeta in *.
  set (W := width (loadImage (path first))) in *.
  set (H := height (loadImage (path first))) in *.
  destruct (byte_count rows cols W H <? 0) eqn:Hn; [discriminate Hok|].
  apply Z.ltb_ge in Hn.
  destruct (for_loop 0 (length viewInfos) (copy_view loadImage viewInfos W H)
              (replicate (Z.to_nat (byte_count rows cols W H)) 0))
    as [t [data|f]] eqn:Eloop; [|discriminate Hok].
  pose proof (for_loop_quiet (copy_view loadImage viewInfos W H)
                (length viewInfos) 0
                (replicate (Z.to_nat (byte_count rows cols W H)) 0)
                (copy_view_quiet loadImage viewInfos W H)) as Hq.
  rewrite Eloop in Hq. simpl in Hq. subst t.
  simpl in Hok. inversion Hok; subst w'. clear Hok.
  exists first, data. split; [exact H0|]. split; [exact Hnull|].
  split; [|split; [|split; [exact Ep|reflexivity]]].
  - intros k info Hk.
    pose proof (lookup_lt_Some _ _ _ Hk) as Hlt.
    destruct (for_loop_each
                (fun i => exists info, viewInfos !! Z.to_nat i = Some info /\
                   width (loadImage (path info)) = W /\
                   height (loadImage (path info)) = H)
                _ _ _ _ _ _
                (fun i s t s' E => proj2 (copy_view_inv _ _ _ _ _ _ _ _ E))
                Eloop (Z.of_nat k) ltac:(lia)) as (info' & Hk' & Hdims).
    rewrite Nat2Z.id in Hk'.
    assert (info' = info) by congruence. subst info'. exact Hdims.
  - rewrite (for_loop_keeps (@length Z) _ _ _ _ _ _
               (fun i s t s' E => proj1 (copy_view_inv _ _ _ _ _ _ _ _ E)) Eloop).
    rewrite length_replicate. now apply Z2Nat.id.
Qed.

(** X2. All or nothing: whenever [setLightField] returns, the list was not
    empty, its first image decoded, and every image of the list had the
    first image's width and height. *)
Theorem load_returns_only_for_uniform_grid (loadImage : string -> QImage)
    (viewInfos : list ImageInfo) (rows cols : Z) (w w' : LightFieldWidget) :
  outcome (setLightField loadImage viewInfos rows cols w) = Ok w' ->
  exists first : ImageInfo,
    viewInfos !! 0%nat = Some first /\
    isNull (loadImage (path first)) = false /\
    forall (k : nat) (info : ImageInfo), viewInfos !! k = Some info ->
      isNull (loadImage (path info)) = false /\
      width (loadImage (path info)) = width (loadImage (path first)) /\
      height (loadImage (path info)) = height (loadImage (path first)).
Proof.
  intros Hok.
  destruct (setLightField_returns _ _ _ _ _ _ Hok)
    as (first & data & H0 & Hnull & Hsame & _).
  exists first. split; [exact H0|]. split; [exact Hnull|].
  intros k info Hk. destruct (Hsame k info Hk) as [EW EH].
  split; [|split; assumption].
  apply raster_not_null. rewrite EW. apply (raster_dims_pos _ Hnull).
Qed.

Lemma load_returns_only_for_uniform_grid_witness :
  exists first : ImageInfo,
    Sample.grid !! 0%nat = Some first /\
    isNull (Sample.decode (path first)) = false /\
    forall (k : nat) (info : ImageInfo), Sample.grid !! k = Some info ->
      isNull (Sample.decode (path info)) = false /\
      width (Sample.decode (path info)) = width (Sample.decode (path first)) /\
      height (Sample.decode (path info)) = height (Sample.decode (path first)).
Proof.
  apply (load_returns_only_for_uniform_grid Sample.decode Sample.grid 1 2
           (construct (mkQSize 640 480))
           (with_texture
              (Some (make_texture 2 1 2
                       [10; 20; 30; 11; 21; 31; 110; 120; 130; 111; 121; 131]))
              (with_imageSize (mkQSize 2 1)
                 (with_grid 1 2 (construct (mkQSize 640 480)))))).
  reflexivity.
Defined.



(** X4. A load keeps the focus, the aperture, the camera position, the
    drag state and the widget's size as they were, and records the grid
    shape it was given. *)
Theorem load_keeps_camera_state (loadImage : string -> QImage)
    (viewInfos : list ImageInfo) (rows cols : Z) (w w' : LightFieldWidget) :
  outcome (setLightField loadImage viewInfos rows cols w) = Ok w' ->
  focusPoint w' = focusPoint w /\
  apertureSize w' = apertureSize w /\
  cameraPosition w' = cameraPosition w /\
  isClick w' = isClick w /\
  prevMouseClick w' = prevMouseClick w /\
  geometry w' = geometry w /\
  lfRows w' = rows /\ lfCols w' = cols.
Proof.
  intros Hok.
  destruct (setLightField_returns _ _ _ _ _ _ Hok)
    as (first & data & _ & _ & _ & _ & _ & ->).
  repeat split.
Qed.

Lemma load_keeps_camera_state_witness :
  cameraPosition
    (with_texture
       (Some (make_texture 2 1 2
                [10; 20; 30; 11; 21; 31; 110; 120; 130; 111; 121; 131]))
       (with_imageSize (mkQSize 2 1)
          (with_grid 1 2 (setFocusPoint (F32.lit 3 0) (construct (mkQSize 640 480))))))
    = cameraPosition (setFocusPoint (F32.lit 3 0) (construct (mkQSize 640 480))).
Proof.
  apply (load_keeps_camera_state Sample.decode Sample.grid 1 2
           (setFocusPoint (F32.lit 3 0) (construct (mkQSize 640 480)))).
  reflexivity.
Defined.

(** *** A call that does not return *)

Lemma quiet_trace_no_gpu {A} (m : M A) :
  quiet m -> Forall (fun e => is_gpu e = false) (trace m).
Proof.
  destruct m as [t [a|f]]; simpl.
  - intros ->. constructor.
  - intros [[-> _]|(msg & -> & _)]; repeat constructor.
Qed.




Lemma byte_count_exact_nonneg (rows cols W H : Z) :
  0 <= rows * cols -> 0 < H -> 0 < W -> rows * cols * H * W * 3 <= INT_MAX ->
  int_mul rows cols = rows * cols /\
  byte_count rows cols W H = rows * cols * H * W * 3 /\
  0 <= rows * cols * H * W * 3.
Proof.
  intros HN HH HW Hmax.
  destruct (byte_count_exact (rows * cols) H W HN HH HW Hmax) as [_ Ebytes].
  assert (EN : int_mul rows cols = rows * cols).
  { unfold int_mul. apply wrap32_id. unfold INT_MIN, INT_MAX in *. nia. }
  split; [exact EN|]. unfold byte_count. rewrite EN. split; [exact Ebytes|].
  assert (0 <= rows * cols * H) by nia.
  assert (0 <= rows * cols * H * W) by nia. lia.
Qed.

(** X7. An image after the first that does not decode is caught by the
    size comparison, not by a check of its own: the call prints the
    size diagnostic and aborts, after [makeCurrent] and [updateGeometry]
    only. *)
Theorem later_image_decode_failure (loadImage : string -> QImage)
    (viewInfos : list ImageInfo) (rows cols : Z) (w : LightFieldWidget)
    (first : ImageInfo) (k : nat) (info : ImageInfo) :
  viewInfos !! 0%nat = Some first ->
  isNull (loadImage (path first)) = false ->
  viewInfos !! k = Some info ->
  isNull (loadImage (path info)) = true ->
  Z.of_nat (length viewInfos) <= rows * cols ->
  rows * cols * height (loadImage (path first)) * width (loadImage (path first)) * 3
    <= INT_MAX ->
  setLightField loadImage viewInfos rows cols w =
    ([MakeCurrent; UpdateGeometry; QDebug "[ERROR] image size invalid!!"],
     Fail Abort).
Proof.
  intros H0 Hnn Hk Hnull Hfit Hmax.
  destruct (raster_dims_pos _ Hnn) as [HW HH].
  rewrite (setLightField_paths _ _ _ _ _ _ H0), Hnn. cbv zeta.
  destruct (byte_count_exact_nonneg rows cols _ _ ltac:(lia) HH HW Hmax)
    as (_ & -> & Hlen).
  destruct (Z.ltb_spec (rows * cols * height (loadImage (path first))
                          * width (loadImage (path first)) * 3) 0); [lia|].
  rewrite (copy_views_abort loadImage viewInfos _ _ (rows * cols) k info
             HW HH Hk); auto.
  apply size_differs_iff. left.
  destruct (loadImage (path info)); [simpl; lia|discriminate Hnull].
Qed.

Lemma later_image_decode_failure_witness :
  setLightField Sample.decode [mkImageInfo "a.png"; mkImageInfo "missing.png"] 1 2
    (construct (mkQSize 640 480)) =
    ([MakeCurrent; UpdateGeometry; QDebug "[ERROR] image size invalid!!"],
     Fail Abort).
Proof.
  apply (later_image_decode_failure Sample.decode
           [mkImageInfo "a.png"; mkImageInfo "missing.png"] 1 2
           (construct (mkQSize 640 480)) (mkImageInfo "a.png") 1%nat
           (mkImageInfo "missing.png")); try reflexivity.
  all: unfold INT_MAX; simpl; lia.
Defined.

(** X8. A negative grid size never reaches the copy loop: with
    [rows * cols < 0] (and a product that an [int] holds) the vector is
    asked for a negative number of bytes and the call stops there, after
    [makeCurrent] and [updateGeometry], before any image but the first is
    decoded. *)
Theorem negative_grid_is_refused (loadImage : string -> QImage)
    (viewInfos : list ImageInfo) (rows cols : Z) (w : LightFieldWidget)
    (first : ImageInfo) :
  viewInfos !! 0%nat = Some first ->
  isNull (loadImage (path first)) = false ->
  rows * cols < 0 ->
  INT_MIN <=
    rows * cols * height (loadImage (path first)) * width (loadImage (path first)) * 3 ->
  setLightField loadImage viewInfos rows cols w =
    ([MakeCurrent; UpdateGeometry], Fail LengthError).
Proof.
  intros H0 Hnn Hneg Hmin.
  destruct (raster_dims_pos _ Hnn) as [HW HH].
  rewrite (setLightField_paths _ _ _ _ _ _ H0), Hnn. cbv zeta.
  set (W := width (loadImage (path first))) in *.
  set (H := height (loadImage (path first))) in *.
  assert (E : byte_count rows cols W H = rows * cols * H * W * 3).
  { unfold INT_MIN in Hmin.
    assert (rows * cols * H <= rows * cols) by nia.
    assert (rows * cols * H * W <= rows * cols * H) by nia.
    unfold byte_count, int_mul.
    rewrite (wrap32_id (rows * cols)) by (unfold INT_MIN, INT_MAX; lia).
    rewrite (wrap32_id (rows * cols * H)) by (unfold INT_MIN, INT_MAX; lia).
    rewrite (wrap32_id (rows * cols * H * W)) by (unfold INT_MIN, INT_MAX; lia).
    apply wrap32_id. unfold INT_MIN, INT_MAX; lia. }
  rewrite E.
  destruct (Z.ltb_spec (rows * cols * H * W * 3) 0); [reflexivity|].
  assert (rows * cols * H < 0) by nia.
  assert (rows * cols * H * W < 0) by nia. lia.
Qed.

Lemma negative_grid_is_refused_witness :
  setLightField Sample.decode Sample.grid (-1) 2 (construct (mkQSize 640 480)) =
    ([MakeCurrent; UpdateGeometry], Fail LengthError).
Proof.
  apply (negative_grid_is_refused Sample.decode Sample.grid (-1) 2
           (construct (mkQSize 640 480)) (mkImageInfo "a.png")); try reflexivity.
  all: unfold INT_MIN; simpl; lia.
Defined.






(** *** Invariants of the widget's life *)

Lemma handle_grid (e : ui_event) (w : LightFieldWidget) :
  (lfRows (handle e w), lfCols (handle e w)) = (lfRows w, lfCols w).
Proof.
  destruct e as [ev|ev|ev|g|v|v]; simpl; try reflexivity.
  - unfold mousePressEvent. now destruct (button ev =? LeftButton).
  - unfold mouseMoveEvent. destruct (negb _); [|reflexivity].
    now destruct (isClick w).
  - unfold mouseReleaseEvent. now destruct (button ev =? LeftButton).
Qed.

Lemma reachable_invariant (loadImage : string -> QImage) (w : LightFieldWidget) :
  reachable loadImage w -> camera_in_unit_square w /\ load_consistent w.
Proof.
  induction 1 as [g|e w Hw [IHc IHl]|viewInfos rows cols w w' Hw [IHc IHl] Hok].
  - split; [apply construct_camera_in_unit|].
    unfold load_consistent. simpl. repeat split; lia.
  - split; [now apply handle_camera_in_unit|].
    unfold load_consistent in *.
    pose proof (handle_grid e w) as Hg. inversion Hg as [[Hr Hc]].
    now rewrite handle_texture, handle_imageSize, Hr, Hc.
  - destruct (setLightField_returns _ _ _ _ _ _ Hok)
      as (first & data & _ & Hnull & _ & Hlen & _ & ->).
    destruct (raster_dims_pos _ Hnull) as [HW HH].
    split; [exact IHc|].
    unfold load_consistent. simpl. repeat split; auto.
Qed.

(** X10. The camera stays in the unit square through the whole life of
    the widget, loads included: in every reachable state both coordinates
    are within [0, 1]. *)
Theorem camera_in_unit_square_always (loadImage : string -> QImage)
    (w : LightFieldWidget) :
  reachable loadImage w -> camera_in_unit_square w.
Proof. intros Hw. exact (proj1 (reachable_invariant loadImage w Hw)). Qed.

Lemma sample_loaded_reachable :
  reachable Sample.decode
    (with_texture
       (Some (make_texture 2 1 2
                [10; 20; 30; 11; 21; 31; 110; 120; 130; 111; 121; 131]))
       (with_imageSize (mkQSize 2 1)
          (with_grid 1 2 (construct (mkQSize 640 480))))).
Proof.
  apply (reach_load Sample.decode Sample.grid 1 2 (construct (mkQSize 640 480))).
  - apply reach_construct.
  - reflexivity.
Qed.

Lemma camera_in_unit_square_always_witness :
  camera_in_unit_square
    (with_texture
       (Some (make_texture 2 1 2
                [10; 20; 30; 11; 21; 31; 110; 120; 130; 111; 121; 131]))
       (with_imageSize (mkQSize 2 1)
          (with_grid 1 2 (construct (mkQSize 640 480))))).
Proof.
  exact (camera_in_unit_square_always Sample.decode _ sample_loaded_reachable).
Defined.

(** X11. [sizeHint] never divides by zero: in every reachable state the
    recorded image height is positive, so [sizeHint] and
    [minimumSizeHint] have a value, and its height is 512. *)
Theorem size_hint_always_defined (loadImage : string -> QImage)
    (w : LightFieldWidget) :
  reachable loadImage w ->
  0 < size_height (imageSize w) /\
  exists width : Z,
    sizeHint w = Some (mkQSize width 512) /\
    minimumSizeHint w = Some (mkQSize width 512).
Proof.
  intros Hw.
  destruct (reachable_invariant loadImage w Hw) as (_ & _ & Hh & _).
  split; [exact Hh|].
  unfold minimumSizeHint, sizeHint, int_div.
  destruct (Z.eqb_spec (size_height (imageSize w)) 0); [lia|].
  eexists. split; reflexivity.
Qed.

Lemma size_hint_always_defined_witness :
  exists width : Z,
    sizeHint
      (with_texture
         (Some (make_texture 2 1 2
                  [10; 20; 30; 11; 21; 31; 110; 120; 130; 111; 121; 131]))
         (with_imageSize (mkQSize 2 1)
            (with_grid 1 2 (construct (mkQSize 640 480)))))
      = Some (mkQSize width 512) /\
    minimumSizeHint
      (with_texture
         (Some (make_texture 2 1 2
                  [10; 20; 30; 11; 21; 31; 110; 120; 130; 111; 121; 131]))
         (with_imageSize (mkQSize 2 1)
            (with_grid 1 2 (construct (mkQSize 640 480)))))
      = Some (mkQSize width 512).
Proof.
  exact (proj2 (size_hint_always_defined Sample.decode _ sample_loaded_reachable)).
Defined.

(** X12. The texture, the image size and the grid shape never disagree:
    in every reachable state, either nothing is loaded and the image size
    is the default 1 by 1 with a 0 by 0 grid, or the texture has the
    recorded image size, its depth is the (int) product of the recorded
    rows and columns that [paintGL] hands to the shader, and its data has
    the byte count of that shape. *)
Theorem texture_matches_recorded_shape (loadImage : string -> QImage)
    (w : LightFieldWidget) :
  reachable loadImage w -> load_consistent w.
Proof. intros Hw. exact (proj2 (reachable_invariant loadImage w Hw)). Qed.

Lemma texture_matches_recorded_shape_witness :
  load_consistent
    (handle (Press (mkQMouseEvent LeftButton LeftButton (mkQPoint 3 4)))
       (with_texture
          (Some (make_texture 2 1 2
                   [10; 20; 30; 11; 21; 31; 110; 120; 130; 111; 121; 131]))
          (with_imageSize (mkQSize 2 1)
             (with_grid 1 2 (construct (mkQSize 640 480)))))).
Proof.
  apply (texture_matches_recorded_shape Sample.decode).
  apply reach_event. exact sample_loaded_reachable.
Defined.

(** *** Drags begin with a left press and end with a left release *)

Lemma handle_without_left_press (e : ui_event) (w : LightFieldWidget) :
  starts_drag e = false -> isClick w = false ->
  cameraPosition (handle e w) = cameraPosition w /\ isClick (handle e w) = false.
Proof.
  intros He Hc. destruct e as [ev|ev|ev|g|v|v]; simpl in *; auto.
  - unfold mousePressEvent. rewrite He. auto.
  - rewrite (mouseMoveEvent_idle ev w (or_introl Hc)). auto.
  - unfold mouseReleaseEvent. destruct (button ev =? LeftButton); auto.
Qed.

Lemma run_without_left_press (evs : list ui_event) (w : LightFieldWidget) :
  Forall (fun e => starts_drag e = false) evs -> isClick w = false ->
  cameraPosition (run evs w) = cameraPosition w /\ isClick (run evs w) = false.
Proof.
  intros Hevs. revert w.
  induction Hevs as [|e evs He _ IH]; intros w Hc; [auto|].
  destruct (handle_without_left_press e w He Hc) as [E1 E2].
  change (run (e :: evs) w) with (run evs (handle e w)).
  destruct (IH (handle e w) E2) as [E3 E4]. split; congruence.
Qed.

(** X13. Only a press of the left button lets the camera move: while no
    drag is in progress, any sequence of events without a left press
    (moves with any buttons held, presses of other buttons, releases,
    resizes, setter calls) leaves the camera where it was after every
    single event. *)
Theorem camera_moves_only_after_left_press (evs : list ui_event)
    (w : LightFieldWidget) :
  isClick w = false ->
  Forall (fun e => starts_drag e = false) evs ->
  Forall (fun w' => cameraPosition w' = cameraPosition w /\ isClick w' = false)
    (trajectory evs w).
Proof.
  intros Hc Hevs. revert w Hc.
  induction Hevs as [|e evs He _ IH]; intros w Hc; simpl; constructor.
  - now apply handle_without_left_press.
  - destruct (handle_without_left_press e w He Hc) as [E1 E2].
    rewrite <- E1. now apply IH.
Qed.

Lemma camera_moves_only_after_left_press_witness :
  Forall (fun w' => cameraPosition w' = cameraPosition (construct (mkQSize 640 480))
                    /\ isClick w' = false)
    (trajectory
       [Press (mkQMouseEvent RightButton RightButton (mkQPoint 10 10));
        Move (mkQMouseEvent NoButton (Z.lor LeftButton RightButton) (mkQPoint 90 70))]
       (construct (mkQSize 640 480))).
Proof.
  apply (camera_moves_only_after_left_press
           [Press (mkQMouseEvent RightButton RightButton (mkQPoint 10 10));
            Move (mkQMouseEvent NoButton (Z.lor LeftButton RightButton) (mkQPoint 90 70))]
           (construct (mkQSize 640 480))).
  - reflexivity.
  - repeat constructor.
Defined.

(** X14. A release of the left button ends the drag: whatever the state
    before, the moves that follow it, even with the left button reported
    as held, do not move the camera. *)
Theorem left_release_ends_drag (release : QMouseEvent)
    (moves : list QMouseEvent) (w : LightFieldWidget) :
  button release = LeftButton ->
  cameraPosition (run (Release release :: map Move moves) w) = cameraPosition w /\
  isClick (run (Release release :: map Move moves) w) = false.
Proof.
  intros Hb.
  change (run (Release release :: map Move moves) w)
    with (run (map Move moves) (mouseReleaseEvent release w)).
  unfold mouseReleaseEvent. rewrite Hb. simpl.
  apply (run_without_left_press (map Move moves) (with_isClick false w));
    [|reflexivity].
  induction moves as [|ev moves IH]; simpl; constructor; auto.
Qed.

Lemma left_release_ends_drag_witness :
  cameraPosition
    (run (Release (mkQMouseEvent LeftButton NoButton (mkQPoint 50 50))
            :: map Move [mkQMouseEvent NoButton LeftButton (mkQPoint 400 300)])
       (mousePressEvent (mkQMouseEvent LeftButton LeftButton (mkQPoint 50 50))
          (construct (mkQSize 640 480))))
    = cameraPosition (construct (mkQSize 640 480)).
Proof.
  apply (left_release_ends_drag
           (mkQMouseEvent LeftButton NoButton (mkQPoint 50 50))
           [mkQMouseEvent NoButton LeftButton (mkQPoint 400 300)]
           (mousePressEvent (mkQMouseEvent LeftButton LeftButton (mkQPoint 50 50))
              (construct (mkQSize 640 480)))).
  reflexivity.
Defined.

(** X15. The division by the widget's smaller side is unguarded: in a
    widget whose width or height is 0, a move of a drag that has not left
    the press point divides 0 by 0, and the NaN goes through
    [std::min] and [std::max] to put the camera at exactly (0, 0),
    wherever it was. *)
Theorem zero_sized_widget_resets_camera (ev : QMouseEvent) (w : LightFieldWidget) :
  isClick w = true -> left_held ev ->
  Z.min (size_width (geometry w)) (size_height (geometry w)) = 0 ->
  pos ev = prevMouseClick w ->
  cameraPosition (mouseMoveEvent ev w) = mkQPointF F64.zero F64.zero.
Proof.
  intros Hc Hl Hmin Hp.
  rewrite (mouseMoveEvent_dragging ev w Hl Hc). simpl.
  unfold drag_step. rewrite Hmin, Hp. unfold int_sub. rewrite !Z.sub_diag.
  change (F64.div (F64.of_int (wrap32 0)) (F64.of_int 0)) with S754_nan.
  assert (Hnan : forall x, F64.add x S754_nan = S754_nan) by (intros []; reflexivity).
  now rewrite !Hnan.
Qed.

Lemma zero_sized_widget_resets_camera_witness :
  cameraPosition
    (mouseMoveEvent (mkQMouseEvent NoButton LeftButton (mkQPoint 0 0))
       (mousePressEvent (mkQMouseEvent LeftButton LeftButton (mkQPoint 0 0))
          (construct (mkQSize 0 480))))
    = mkQPointF F64.zero F64.zero.
Proof.
  apply (zero_sized_widget_resets_camera
           (mkQMouseEvent NoButton LeftButton (mkQPoint 0 0))
           (mousePressEvent (mkQMouseEvent LeftButton LeftButton (mkQPoint 0 0))
              (construct (mkQSize 0 480)))).
  - reflexivity.
  - unfold left_held. simpl. discriminate.
  - reflexivity.
  - reflexivity.
Defined.

(** *** Rendering after a load *)

(** X16. Once a load has returned, every render pass, whatever events and
    setter calls came in between, starts with the clear, issues exactly
    one draw call, of 6 indices, and hands the shader the rows and columns
    of that load and the focus and aperture as they are then. *)
Theorem render_after_load (loadImage : string -> QImage)
    (viewInfos : list ImageInfo) (rows cols : Z) (w w' : LightFieldWidget)
    (evs : list ui_event) :
  outcome (setLightField loadImage viewInfos rows cols w) = Ok w' ->
  head (paintGL (run evs w')) = Some GlClear /\
  List.filter is_draw (paintGL (run evs w')) = [GlDrawElements 6] /\
  In (SetUniformInt "rows" rows) (paintGL (run evs w')) /\
  In (SetUniformInt "cols" cols) (paintGL (run evs w')) /\
  In (SetUniformFloat "focusPoint" (focusPoint (run evs w'))) (paintGL (run evs w')) /\
  In (SetUniformFloat "apertureSize" (apertureSize (run evs w'))) (paintGL (run evs w')).
Proof.
  intros Hok.
  destruct (setLightField_returns _ _ _ _ _ _ Hok)
    as (first & data & _ & _ & _ & _ & _ & Hw').
  assert (Htex : is_Some (lightFieldTexture (run evs w'))).
  { rewrite (run_preserves lightFieldTexture evs handle_texture).
    subst w'. simpl. eauto. }
  assert (Hgrid : (lfRows (run evs w'), lfCols (run evs w')) = (rows, cols)).
  { rewrite (run_preserves (fun w => (lfRows w, lfCols w)) evs handle_grid).
    subst w'. reflexivity. }
  inversion Hgrid as [[Hr Hc]].
  destruct Htex as [tex Htex].
  unfold paintGL. rewrite Htex, Hr, Hc. simpl.
  repeat split; auto 20.
Qed.

Lemma render_after_load_witness :
  List.filter is_draw
    (paintGL
       (run [FocusSet (F32.lit 3 0)]
          (with_texture
             (Some (make_texture 2 1 2
                      [10; 20; 30; 11; 21; 31; 110; 120; 130; 111; 121; 131]))
             (with_imageSize (mkQSize 2 1)
                (with_grid 1 2 (construct (mkQSize 640 480)))))))
    = [GlDrawElements 6].
Proof.
  apply (render_after_load Sample.decode Sample.grid 1 2
           (construct (mkQSize 640 480))
           (with_texture
              (Some (make_texture 2 1 2
                       [10; 20; 30; 11; 21; 31; 110; 120; 130; 111; 121; 131]))
              (with_imageSize (mkQSize 2 1)
                 (with_grid 1 2 (construct (mkQSize 640 480)))))
           [FocusSet (F32.lit 3 0)]).
  reflexivity.
Defined.
